(** * The service watcher of [watch-restart.py] and the layer tree printer
      of [tools/inspect-psd.py]

    A shallow embedding of the change dispatcher: the path classification
    ([should_ignore], [get_service]), the debounced restart
    ([restart_service]) and the event callbacks ([on_modified],
    [on_created]) of [RestartHandler], followed by the properties the
    specification states about them.  After these come the status report of
    [main], sequences of callbacks, and [print_layer_tree] of the PSD
    inspector, with properties read off the code.

    Conventions of the model:
    - Python [str] values are [string]s (byte strings; the check mark and the
      cross of the log lines are their UTF-8 bytes);
    - [pathlib.Path] is the pure POSIX path: a root and the list of the
      components that are neither empty nor a single dot;
    - a reading of [time.time()] is a rational number of seconds;
    - [self.last_restart] is a finite map from service names to readings;
    - [print], the store into [self.last_restart] and [subprocess.run] are
      recorded, in program order, in a trace of effects;
    - an exception is a value of [exn]; a call returns [Ok] or [Raised]. *)

From Stdlib Require Import Ascii QArith.
From stdpp Require Import gmap strings list fin_maps.

Local Open Scope string_scope.

(** ** Strings *)

Definition sep : ascii := "/"%char.

(** [s.startswith(pat)] *)
Fixpoint startswith (s pat : string) {struct pat} : bool :=
  match pat with
  | EmptyString => true
  | String a pat' =>
      match s with
      | EmptyString => false
      | String b s' => if Ascii.eqb a b then startswith s' pat' else false
      end
  end.

(** [pat in s] on strings: some suffix of [s] starts with [pat]. *)
Fixpoint str_in (pat s : string) : bool :=
  startswith s pat ||
  match s with
  | EmptyString => false
  | String _ s' => str_in pat s'
  end.

(** [sep in s] *)
Fixpoint has_sep (s : string) : bool :=
  match s with
  | EmptyString => false
  | String c s' => Ascii.eqb c sep || has_sep s'
  end.

(** [s.rstrip("/")]: every trailing separator is removed. *)
Fixpoint rstrip_sep (s : string) : string :=
  match s with
  | EmptyString => EmptyString
  | String c s' =>
      match rstrip_sep s' with
      | EmptyString => if Ascii.eqb c sep then EmptyString else String c EmptyString
      | r => String c r
      end
  end.

(** [s.split("/")]: never empty, the pieces hold no separator. *)
Fixpoint split_sep (s : string) : list string :=
  match s with
  | EmptyString => [EmptyString]
  | String c s' =>
      if Ascii.eqb c sep then EmptyString :: split_sep s'
      else match split_sep s' with
           | x :: r => String c x :: r
           | [] => [String c EmptyString]
           end
  end.

(** ["/".join(l)] *)
Fixpoint join_sep (l : list string) : string :=
  match l with
  | [] => EmptyString
  | [x] => x
  | x :: r => x ++ String sep (join_sep r)
  end.

(** [c * n] for a one-character string. *)
Fixpoint repeat_char (c : ascii) (n : nat) : string :=
  match n with
  | O => EmptyString
  | S n' => String c (repeat_char c n')
  end.

(** ** Pure POSIX paths *)

Record PurePath := mkPath { root : string; tail : list string }.

(** [posixpath.splitroot]: one leading slash, or three and more, give the
    root ["/"]; exactly two give the root ["//"]. *)
Definition splitroot (p : string) : string * string :=
  match p with
  | String a r1 =>
      if Ascii.eqb a sep then
        match r1 with
        | String b r2 =>
            if Ascii.eqb b sep then
              match r2 with
              | String c _ => if Ascii.eqb c sep then ("/", r1) else ("//", r2)
              | EmptyString => ("//", r2)
              end
            else ("/", r1)
        | EmptyString => ("/", r1)
        end
      else ("", p)
  | EmptyString => ("", p)
  end.

(** The components kept by the parser: [x and x != '.']. *)
Definition kept (x : string) : bool :=
  negb (String.eqb x "") && negb (String.eqb x ".").

(** [Path(s)] *)
Definition Path (s : string) : PurePath :=
  let '(r, rel) := splitroot s in
  mkPath r (List.filter kept (split_sep rel)).

(** [str(p)] *)
Definition str (p : PurePath) : string :=
  match root p ++ join_sep (tail p) with
  | EmptyString => "."
  | s => s
  end.

(** [l] without its prefix [pre], when it has that prefix. *)
Fixpoint strip_parts (pre l : list string) : option (list string) :=
  match pre with
  | [] => Some l
  | x :: pre' =>
      match l with
      | [] => None
      | y :: l' => if String.eqb x y then strip_parts pre' l' else None
      end
  end.

(** [self.relative_to(other)]; [None] stands for the [ValueError] raised
    when [self] is not [other] or below it. *)
Definition relative_to (self other : PurePath) : option PurePath :=
  if String.eqb (root self) (root other) then
    match strip_parts (tail other) (tail self) with
    | Some rest => Some (mkPath "" rest)
    | None => None
    end
  else None.

(** ** Exceptions, results and effects *)

Inductive exn :=
  | ValueError (msg : string)
  | OSError (msg : string)
  | KeyboardInterrupt.

(** [isinstance(e, Exception)]: what [except Exception] catches. *)
Definition is_Exception (e : exn) : bool :=
  match e with
  | KeyboardInterrupt => false
  | _ => true
  end.

(** [str(e)], as the f-string of the handler formats it. *)
Definition exn_str (e : exn) : string :=
  match e with
  | ValueError m | OSError m => m
  | KeyboardInterrupt => ""
  end.

Inductive result (A : Type) :=
  | Ok (a : A)
  | Raised (e : exn).
Arguments Ok {A} a.
Arguments Raised {A} e.

(** What [subprocess.run(..., capture_output=True, text=True)] returns. *)
Record CompletedProcess :=
  mkCompleted { returncode : Z; stdout : string; stderr : string }.

Inductive effect :=
  | Print (line : string)
  | Store (service : string) (t : Q)
  | Run (argv : list string).

(** The attributes set by [RestartHandler.__init__]. *)
Record RestartHandler :=
  mkHandler { last_restart : gmap string Q; pending_restarts : gset string }.

Definition init : RestartHandler := mkHandler ∅ ∅.

(** The handler object together with what the process has done so far. *)
Record world := mkWorld { self : RestartHandler; trace : list effect }.

(** What one callback sees of its surroundings: the clock and the answer of
    the process manager to a command line. *)
Record env :=
  mkEnv { time_time : Q; subprocess_run : list string -> result CompletedProcess }.

(** The module constants. [SERVICE_MAP] is a dict literal, iterated in
    insertion order. *)
Record config := mkConfig {
  WATCH_DIR : PurePath;
  DEBOUNCE_SECONDS : Q;
  SERVICE_MAP : list (string * option string);
  IGNORE_PATTERNS : list string
}.

Definition deployed : config := {|
  WATCH_DIR := Path "/home/liveStream";
  DEBOUNCE_SECONDS := 2;
  SERVICE_MAP := [ ("animation-server/", Some "animation");
                   ("frontend/", Some "livestream");
                   ("server.js", Some "livestream");
                   ("voices.js", Some "livestream");
                   ("tools/", None) ];
  IGNORE_PATTERNS := [ "node_modules"; ".git"; "streams"; "exported-layers";
                       "temp"; "__pycache__"; ".pyc"; ".log"; ".ts"; ".m3u8" ]
|}.

(** ** The monad of a callback: state, trace and exceptions *)

Definition M (A : Type) : Type := world -> result A * world.

Definition ret {A} (a : A) : M A := fun w => (Ok a, w).

Definition raise {A} (e : exn) : M A := fun w => (Raised e, w).

Definition bind {A B} (m : M A) (k : A -> M B) : M B :=
  fun w => match m w with
           | (Ok a, w') => k a w'
           | (Raised e, w') => (Raised e, w')
           end.

Definition lift {A} (r : result A) : M A := fun w => (r, w).

(** [try: body  except Exception as e: handler(e)] *)
Definition try_except {A} (body : M A) (handler : exn -> M A) : M A :=
  fun w => match body w with
           | (Raised e, w') => if is_Exception e then handler e w' else (Raised e, w')
           | r => r
           end.

Notation "x <- m ;; k" := (bind m (fun x => k))
  (at level 90, m at next level, right associativity).
Notation "m ;;; k" := (bind m (fun _ => k))
  (at level 90, right associativity).

Definition emit (e : effect) : M unit :=
  fun w => (Ok tt, mkWorld (self w) (trace w ++ [e])%list).

Definition print (line : string) : M unit := emit (Print line).

Definition get_last_restart : M (gmap string Q) :=
  fun w => (Ok (last_restart (self w)), w).

(** [self.last_restart[service] = now] *)
Definition set_last_restart (service : string) (now : Q) : M unit :=
  fun w => (Ok tt,
            mkWorld (mkHandler (<[service := now]> (last_restart (self w)))
                               (pending_restarts (self w)))
                    (trace w ++ [Store service now])%list).

(** [x < y] on readings of the clock. *)
Definition Qltb (x y : Q) : bool :=
  match (x ?= y)%Q with
  | Lt => true
  | _ => false
  end.

Definition newline : ascii := ascii_of_nat 10.

(** A watchdog event, as far as the callbacks look at it. *)
Record event := mkEvent { is_directory : bool; src_path : string }.

(** The condition of the loop of [get_service]:
    [rel_path.startswith(pattern) or rel_path == pattern.rstrip("/")]. *)
Definition rule_matches (rel_path pattern : string) : bool :=
  startswith rel_path pattern || String.eqb rel_path (rstrip_sep pattern).

Section Handler.
Variable cfg : config.
Variable E : env.

(** [subprocess.run(argv, capture_output=True, text=True)] *)
Definition run (argv : list string) : M CompletedProcess :=
  emit (Run argv) ;;; lift (subprocess_run E argv).

Definition should_ignore (path : string) : bool :=
  existsb (fun pattern => str_in pattern path) (IGNORE_PATTERNS cfg).

(** [str(Path(path).relative_to(WATCH_DIR))]; the text of the [ValueError]
    is the one of Python 3.12, and nothing below depends on it. *)
Definition rel_path_of (path : string) : result string :=
  match relative_to (Path path) (WATCH_DIR cfg) with
  | Some p => Ok (str p)
  | None =>
      Raised (ValueError ("'" ++ str (Path path) ++ "' is not in the subpath of '"
                          ++ str (WATCH_DIR cfg) ++ "'"))
  end.

(** The loop of [get_service] over [SERVICE_MAP.items()]. *)
Fixpoint scan (items : list (string * option string)) (rel_path : string)
  : option string :=
  match items with
  | [] => None
  | (pattern, service) :: rest =>
      if rule_matches rel_path pattern then service
      else scan rest rel_path
  end.

Definition get_service (path : string) : result (option string) :=
  match rel_path_of path with
  | Ok rel_path => Ok (scan (SERVICE_MAP cfg) rel_path)
  | Raised e => Raised e
  end.

(** The test [service in self.last_restart and now - self.last_restart[service]
    < DEBOUNCE_SECONDS] of the two nested [if]s. *)
Definition debounced (last : gmap string Q) (service : string) (now : Q) : bool :=
  match last !! service with
  | Some t => Qltb (now - t) (DEBOUNCE_SECONDS cfg)
  | None => false
  end.

Definition restart_service (service : string) : M unit :=
  let now := time_time E in
  last <- get_last_restart ;;
  if debounced last service now then ret tt
  else
    set_last_restart service now ;;;
    print (String newline (repeat_char "=" 50)) ;;;
    print ("Restarting " ++ service ++ "...") ;;;
    print (repeat_char "=" 50) ;;;
    try_except
      (result <- run ["systemctl"; "restart"; service] ;;
       if (returncode result =? 0)%Z
       then print ("✓ " ++ service ++ " restarted successfully")
       else print ("✗ Failed to restart " ++ service ++ ": " ++ stderr result))
      (fun e => print ("✗ Error restarting " ++ service ++ ": " ++ exn_str e)).

(** [if service:] holds for a service name that is not the empty string. *)
Definition on_modified (ev : event) : M unit :=
  if is_directory ev then ret tt
  else if should_ignore (src_path ev) then ret tt
  else
    service <- lift (get_service (src_path ev)) ;;
    match service with
    | Some (String c s) =>
        rel_path <- lift (rel_path_of (src_path ev)) ;;
        print ("Changed: " ++ rel_path) ;;;
        restart_service (String c s)
    | _ => ret tt
    end.

Definition on_created (ev : event) : M unit := on_modified ev.

End Handler.

(** ** What a trace holds *)

(** The command lines handed to [subprocess.run], in order. *)
Fixpoint runs (t : list effect) : list (list string) :=
  match t with
  | [] => []
  | Run argv :: t' => argv :: runs t'
  | _ :: t' => runs t'
  end.

(** The lines printed, in order. *)
Fixpoint printed (t : list effect) : list string :=
  match t with
  | [] => []
  | Print line :: t' => line :: printed t'
  | _ :: t' => printed t'
  end.

(** The command line of a restart. *)
Definition restart_argv (service : string) : list string :=
  ["systemctl"; "restart"; service].

(** What a restart that passes the debounce test does up to and including the
    call of the process manager. *)
Definition attempt (service : string) (now : Q) : list effect :=
  [ Store service now;
    Print (String newline (repeat_char "=" 50));
    Print ("Restarting " ++ service ++ "...");
    Print (repeat_char "=" 50);
    Run (restart_argv service) ].

(** What follows the call of the process manager: the line printed for its
    answer and how [restart_service] ends. *)
Definition verdict (service : string) (o : result CompletedProcess)
    : list effect * result unit :=
  match o with
  | Ok r =>
      if (returncode r =? 0)%Z
      then ([Print ("✓ " ++ service ++ " restarted successfully")], Ok tt)
      else ([Print ("✗ Failed to restart " ++ service ++ ": " ++ stderr r)], Ok tt)
  | Raised e =>
      if is_Exception e
      then ([Print ("✗ Error restarting " ++ service ++ ": " ++ exn_str e)], Ok tt)
      else ([], Raised e)
  end.

(** The handler after [self.last_restart[service] = now]. *)
Definition stamped (h : RestartHandler) (service : string) (now : Q) : RestartHandler :=
  mkHandler (<[service := now]> (last_restart h)) (pending_restarts h).

(** The world with the entry of [service] in [self.last_restart] replaced by
    [v] ([None]: no entry). *)
Definition with_entry (service : string) (v : option Q) (w : world) : world :=
  mkWorld (mkHandler (partial_alter (fun _ => v) service (last_restart (self w)))
                     (pending_restarts (self w)))
          (trace w).

(** The deployed configuration with another rule table. *)
Definition with_rules (items : list (string * option string)) : config :=
  mkConfig (WATCH_DIR deployed) (DEBOUNCE_SECONDS deployed) items (IGNORE_PATTERNS deployed).

(** The configuration of the example of the specification. *)
Definition app_cfg : config :=
  mkConfig (Path "/app") 2
           [("frontend/", Some "livestream"); ("frontend/sub/", Some "other")] [].

(** Sample surroundings: a process manager that succeeds, one that exits
    with status 1 and one that cannot be started. *)
Definition succeeds (now : Q) : env :=
  mkEnv now (fun _ => Ok (mkCompleted 0 "" "")).

Definition exits_1 (now : Q) : env :=
  mkEnv now (fun _ => Ok (mkCompleted 1 "" "unit not found")).

Definition not_started (now : Q) : env :=
  mkEnv now (fun _ => Raised (OSError "unit not found")).

Definition fresh : world := mkWorld init [].

(** How a process manager fails: a status other than zero, or an exception
    of class [Exception] raised by the invocation. *)
Definition failed (o : result CompletedProcess) : Prop :=
  match o with
  | Ok r => returncode r <> 0%Z
  | Raised e => is_Exception e = true
  end.

(** The line printed for a failure. *)
Definition failure_line (service : string) (o : result CompletedProcess) : string :=
  match o with
  | Ok r => "✗ Failed to restart " ++ service ++ ": " ++ stderr r
  | Raised e => "✗ Error restarting " ++ service ++ ": " ++ exn_str e
  end.

(** The rule that decides a relative path, in the words of the
    specification: the first rule of the table that matches. *)
Definition first_match (items : list (string * option string)) (rel_path pattern : string)
    (service : option string) : Prop :=
  exists pre post,
    items = (pre ++ (pattern, service) :: post)%list /\
    rule_matches rel_path pattern = true /\
    Forall (fun r => rule_matches rel_path (fst r) = false) pre.

Definition no_match (items : list (string * option string)) (rel_path : string) : Prop :=
  Forall (fun r => rule_matches rel_path (fst r) = false) items.

(** ** Sequences of callbacks *)

(** The world after [print(f"Changed: {rel_path}")]. *)
Definition announce (rel_path : string) (w : world) : world :=
  mkWorld (self w) (trace w ++ [Print ("Changed: " ++ rel_path)])%list.

(** The clock readings stored for [service], in order. *)
Fixpoint stamps (service : string) (t : list effect) : list Q :=
  match t with
  | [] => []
  | Store s now :: t' =>
      if String.eqb s service then now :: stamps service t' else stamps service t'
  | _ :: t' => stamps service t'
  end.

(** Successive readings are at least [d] apart. *)
Fixpoint spaced (d : Q) (l : list Q) : Prop :=
  match l with
  | a :: (b :: _) as r => (d <= b - a)%Q /\ spaced d r
  | _ => True
  end.

(** The observer hands the events to the handler one after the other; each
    callback has its own reading of the clock and its own answers of the
    process manager.  The world is threaded through, also past a callback
    that raised. *)
Fixpoint callbacks (cfg : config) (calls : list (env * event)) (w : world) : world :=
  match calls with
  | [] => w
  | (E, ev) :: rest => callbacks cfg rest (snd (on_modified cfg E ev w))
  end.

(** The services whose time stamps were stored, in order. *)
Fixpoint stored (t : list effect) : list string :=
  match t with
  | [] => []
  | Store s _ :: t' => s :: stored t'
  | _ :: t' => stored t'
  end.

(** ** The status report of [main] *)

(** The characters that [str.isspace] accepts, as their UTF-8 bytes: the
    ASCII ones in one byte, U+0085 and U+00A0 in two, and U+1680,
    U+2000..U+200A, U+2028, U+2029, U+202F, U+205F and U+3000 in three. *)
Definition space1 (a : ascii) : bool :=
  let n := nat_of_ascii a in
  (((9 <=? n) && (n <=? 13)) || ((28 <=? n) && (n <=? 32)))%nat.

Definition space2 (a b : ascii) : bool :=
  ((nat_of_ascii a =? 194) && ((nat_of_ascii b =? 133) || (nat_of_ascii b =? 160)))%nat.

Definition space3 (a b c : ascii) : bool :=
  let x := nat_of_ascii a in
  let y := nat_of_ascii b in
  let z := nat_of_ascii c in
  (((x =? 225) && (y =? 154) && (z =? 128)) ||
   ((x =? 226) && (y =? 128) &&
      (((128 <=? z) && (z <=? 138)) || (z =? 168) || (z =? 169) || (z =? 175))) ||
   ((x =? 226) && (y =? 129) && (z =? 159)) ||
   ((x =? 227) && (y =? 128) && (z =? 128)))%nat.

(** [s] is exactly one white space character. *)
Definition is_space (s : string) : bool :=
  match s with
  | String a EmptyString => space1 a
  | String a (String b EmptyString) => space2 a b
  | String a (String b (String c EmptyString)) => space3 a b c
  | _ => false
  end.

(** [s.lstrip()] *)
Fixpoint lstrip (s : string) : string :=
  match s with
  | EmptyString => EmptyString
  | String a s1 =>
      if space1 a then lstrip s1
      else match s1 with
           | EmptyString => s
           | String b s2 =>
               if space2 a b then lstrip s2
               else match s2 with
                    | EmptyString => s
                    | String c s3 => if space3 a b c then lstrip s3 else s
                    end
           end
  end.

(** [s.rstrip()] *)
Fixpoint rstrip (s : string) : string :=
  match s with
  | EmptyString => EmptyString
  | String a s' =>
      let r := String a (rstrip s') in
      if is_space r then EmptyString else r
  end.

(** [s.strip()] *)
Definition strip (s : string) : string := lstrip (rstrip s).

(** [for x in l: body(x)] *)
Fixpoint for_each {A} (l : list A) (body : A -> M unit) : M unit :=
  match l with
  | [] => ret tt
  | x :: rest => body x ;;; for_each rest body
  end.

Definition is_active_argv (service : string) : list string :=
  ["systemctl"; "is-active"; service].

(** The body of the loop of [main] over the services. *)
Definition report_status (E : env) (service : string) : M unit :=
  result <- run E (is_active_argv service) ;;
  let status := strip (stdout result) in
  let symbol := if String.eqb status "active" then "✓" else "✗" in
  print ("  " ++ symbol ++ " " ++ service ++ ": " ++ status).

Definition reported_services : list string := ["animation"; "livestream"; "webhook"].

(** The part of [main] between the banner and the start of the observer. *)
Definition status_check (E : env) : M unit :=
  print "Current service status:" ;;;
  for_each reported_services (report_status E) ;;;
  print "".

(** ** The layer tree printer of [tools/inspect-psd.py] *)

(** A node of the document as [print_layer_tree] probes it: each attribute
    that [hasattr] asks for is present or not.  [is_group] and [is_visible]
    are methods, whose call returns or raises; [tag] stands for
    [str(layer.tag)]; [layers], [children] and [iter] are what [list(...)]
    makes of [layer.layers], of [layer.children] and of the layer itself
    when it has [__iter__].  Trees are finite and less deep than the
    recursion limit of the interpreter. *)
#[local] Unset Elimination Schemes.
Inductive layer :=
  mkLayer (is_group : option (result bool))
          (kind : option string)
          (visible : option bool)
          (is_visible : option (result bool))
          (name : option string)
          (tag : option string)
          (layers : option (list layer))
          (children : option (list layer))
          (iter : option (list layer)).
#[local] Set Elimination Schemes.

(** [s * n] *)
Fixpoint str_mul (s : string) (n : nat) : string :=
  match n with
  | O => EmptyString
  | S n' => s ++ str_mul s n'
  end.

(** [is_group]: the answer of the method when there is one, else whether
    [kind] is ["group"]. *)
Definition group_flag (g : option (result bool)) (k : option string) : result bool :=
  match g with
  | Some r => r
  | None =>
      match k with
      | Some kind => Ok (String.eqb kind "group")
      | None => Ok false
      end
  end.

(** [visible]: computed from the attribute or else from the method, and
    not used afterwards. *)
Definition visible_flag (v : option bool) (iv : option (result bool)) : result string :=
  match v with
  | Some b => Ok (if b then "[V]" else "[H]")
  | None =>
      match iv with
      | Some (Ok b) => Ok (if b then "[V]" else "[H]")
      | Some (Raised e) => Raised e
      | None => Ok "[V]"
      end
  end.

Definition node_name (n t : option string) : string :=
  match n with
  | Some x => x
  | None =>
      match t with
      | Some x => x
      | None => "Unknown"
      end
  end.

(** The lines printed, and how the call ended. *)
Definition output : Type := list string * result unit.

Section Children.
Variable rec : layer -> nat -> string -> output.
Variable indent : nat.
Variable prefix : string.
Variable len : nat.

(** The loop [for i, child in enumerate(child_list)] from index [i] on, for
    a list of [len] children. *)
Fixpoint print_children (todo : list layer) (i : nat) : output :=
  match todo with
  | [] => ([], Ok tt)
  | child :: rest =>
      let is_last := Nat.eqb i (len - 1) in
      let parent_prefix :=
        if Nat.ltb 0 indent
        then (if startswith prefix "`" then "    " else "|   ")
        else "" in
      let child_prefix := parent_prefix ++ (if is_last then "`-- " else "|-- ") in
      match rec child (S indent) child_prefix with
      | (out, Ok _) =>
          let '(out', r) := print_children rest (S i) in ((out ++ out')%list, r)
      | (out, Raised e) => (out, Raised e)
      end
  end.

End Children.

Fixpoint print_layer_tree (l : layer) (indent : nat) (prefix : string) {struct l} : output :=
  match l with
  | mkLayer g k v iv n t ls cs it =>
      match group_flag g k with
      | Raised e => ([], Raised e)
      | Ok is_group =>
          match visible_flag v iv with
          | Raised e => ([], Raised e)
          | Ok _ =>
              let line := str_mul "  " indent ++ prefix ++ node_name n t in
              let with_children (child_list : list layer) : output :=
                match child_list with
                | [] => ([line], Ok tt)
                | _ :: _ =>
                    match print_children print_layer_tree indent prefix
                                         (length child_list) child_list 0 with
                    | (out, Ok _) => (line :: out, Ok tt)
                    | (out, Raised e) =>
                        if is_Exception e
                        then
                          let note := str_mul "  " indent ++ "    (Could not list children: "
                                      ++ exn_str e ++ ")" in
                          ((line :: out) ++ [note], Ok tt)%list
                        else (line :: out, Raised e)
                    end
                end in
              if is_group
              then match ls with
                   | Some c => with_children c
                   | None =>
                       match cs with
                       | Some c => with_children c
                       | None =>
                           match it with
                           | Some c => with_children c
                           | None => ([line], Ok tt)
                           end
                       end
                   end
              else ([line], Ok tt)
          end
      end
  end.

(** The list the loop of [print_layer_tree] runs over for a group: the
    first of [layers], [children] and the layer itself that is there. *)
Definition chosen_children (ls cs it : option (list layer)) : option (list layer) :=
  match ls with
  | Some c => Some c
  | None =>
      match cs with
      | Some c => Some c
      | None => it
      end
  end.

(** The line of a node and the note of the [except] branch. *)
Definition node_line (indent : nat) (prefix : string) (n t : option string) : string :=
  str_mul "  " indent ++ prefix ++ node_name n t.

Definition children_note (indent : nat) (e : exn) : string :=
  str_mul "  " indent ++ "    (Could not list children: " ++ exn_str e ++ ")".

(** The nodes that the printer visits: a node, and for a group the nodes
    visited below the children it lists. *)
Fixpoint visited (l : layer) : nat :=
  match l with
  | mkLayer g k v iv n t ls cs it =>
      match group_flag g k with
      | Ok true =>
          match ls with
          | Some c => S (list_sum (map visited c))
          | None =>
              match cs with
              | Some c => S (list_sum (map visited c))
              | None =>
                  match it with
                  | Some c => S (list_sum (map visited c))
                  | None => 1%nat
                  end
              end
          end
      | _ => 1%nat
      end
  end.

(** No probe raises at any visited node. *)
Fixpoint probes_return (l : layer) : bool :=
  match l with
  | mkLayer g k v iv n t ls cs it =>
      match group_flag g k, visible_flag v iv with
      | Ok is_group, Ok _ =>
          if is_group
          then match ls with
               | Some c => forallb probes_return c
               | None =>
                   match cs with
                   | Some c => forallb probes_return c
                   | None =>
                       match it with
                       | Some c => forallb probes_return c
                       | None => true
                       end
                   end
               end
          else true
      | _, _ => false
      end
  end.

(** The same tree with every visibility answer turned round. *)
Fixpoint toggle_visible (l : layer) : layer :=
  match l with
  | mkLayer g k v iv n t ls cs it =>
      mkLayer g k (option_map negb v)
              (option_map (fun r => match r with Ok b => Ok (negb b) | Raised e => Raised e end) iv)
              n t
              (option_map (map toggle_visible) ls)
              (option_map (map toggle_visible) cs)
              (option_map (map toggle_visible) it)
  end.

(** Sample nodes, as psd-tools presents them: a pixel layer and a group that
    is iterated directly. *)
Definition pixel_layer (name : string) (shown : bool) : layer :=
  mkLayer (Some (Ok false)) (Some "pixel") (Some shown) None (Some name) None None None None.

Definition group_layer (name : string) (members : list layer) : layer :=
  mkLayer (Some (Ok true)) (Some "group") (Some true) None (Some name) None
          None None (Some members).

Definition broken_layer (e : exn) : layer :=
  mkLayer (Some (Raised e)) None None None None None None None None.

(** ** Facts about strings *)

Lemma startswith_nil s : startswith s "" = true.
Proof. by destruct s. Qed.

Lemma startswith_refl s : startswith s s = true.
Proof. induction s as [|c s IH]; cbn [startswith]; [done|]. by rewrite Ascii.eqb_refl. Qed.

Lemma startswith_trans a b c :
  startswith c b = true -> startswith b a = true -> startswith c a = true.
Proof.
  revert b c. induction a as [|x a IH]; intros b c Hcb Hba; [done|].
  destruct b as [|y b]; [done|]. destruct c as [|z c]; [done|].
  cbn [startswith] in *.
  destruct (Ascii.eqb x y) eqn:Hxy; [|done].
  destruct (Ascii.eqb y z) eqn:Hyz; [|done].
  apply Ascii.eqb_eq in Hxy, Hyz. subst. rewrite Ascii.eqb_refl. eauto.
Qed.

Lemma str_in_nil s : str_in "" s = true.
Proof. destruct s; reflexivity. Qed.

Lemma str_in_cons pat c s : str_in pat s = true -> str_in pat (String c s) = true.
Proof. intros H. cbn [str_in]. rewrite H. apply orb_true_r. Qed.

Lemma str_in_startswith pat s : startswith s pat = true -> str_in pat s = true.
Proof. intros H. destruct s; cbn [str_in]; by rewrite H. Qed.

(** A substring of a prefix is a substring. *)
Lemma str_in_prefix a b c :
  startswith c b = true -> str_in a b = true -> str_in a c = true.
Proof.
  revert c. induction b as [|x b IH]; intros c Hcb Hab.
  - destruct a; [apply str_in_nil | done].
  - destruct c as [|z c]; [done|]. cbn [startswith] in Hcb.
    destruct (Ascii.eqb x z) eqn:Hxz; [|done]. apply Ascii.eqb_eq in Hxz. subst z.
    cbn [str_in] in Hab. apply orb_true_iff in Hab as [Hab|Hab].
    + apply str_in_startswith. eapply startswith_trans; [|exact Hab].
      cbn [startswith]. by rewrite Ascii.eqb_refl.
    + apply str_in_cons. eauto.
Qed.

Lemma str_in_trans a b c :
  str_in a b = true -> str_in b c = true -> str_in a c = true.
Proof.
  intros Hab. induction c as [|z c IH]; intros Hbc.
  - destruct b; [|done]. by destruct a.
  - cbn [str_in] in Hbc. apply orb_true_iff in Hbc as [Hbc|Hbc].
    + eapply str_in_prefix; eauto.
    + apply str_in_cons. auto.
Qed.


(** ** Components of a path are substrings of the path *)

Lemma append_nil_l (s : string) : "" ++ s = s.
Proof. reflexivity. Qed.

Lemma append_cons c (x s : string) : String c x ++ s = String c (x ++ s).
Proof. reflexivity. Qed.

Lemma startswith_before_sep pat x r :
  has_sep pat = false ->
  startswith (x ++ String sep r) pat = true -> startswith x pat = true.
Proof.
  revert x. induction pat as [|a pat IH]; intros x Hs H; [done|].
  cbn [has_sep] in Hs. apply orb_false_iff in Hs as [Ha Hs].
  destruct x as [|b x].
  - rewrite append_nil_l in H. cbn [startswith] in H. by rewrite Ha in H.
  - rewrite append_cons in H. cbn [startswith] in *.
    destruct (Ascii.eqb a b); [|done]. by apply IH.
Qed.

Lemma str_in_around_sep pat x r :
  has_sep pat = false ->
  str_in pat (x ++ String sep r) = true ->
  str_in pat x = true \/ str_in pat r = true.
Proof.
  intros Hs. induction x as [|b x IH]; intros H.
  - rewrite append_nil_l in H. cbn [str_in] in H.
    apply orb_true_iff in H as [H|H]; [|by right].
    left. apply str_in_startswith.
    by apply (startswith_before_sep pat "" r).
  - rewrite append_cons in H.
    cbn [str_in] in H. apply orb_true_iff in H as [H|H].
    + left. apply str_in_startswith.
      apply (startswith_before_sep pat (String b x) r); [done|].
      by rewrite append_cons.
    + destruct (IH H) as [H'|H']; [left; by apply str_in_cons | by right].
Qed.

Lemma str_in_join_sep pat l :
  has_sep pat = false ->
  str_in pat (join_sep l) = true ->
  pat = "" \/ exists x, x ∈ l /\ str_in pat x = true.
Proof.
  intros Hs. induction l as [|x l IH]; intros H.
  - left. by destruct pat.
  - destruct l as [|y l].
    + right. exists x. split; [apply list_elem_of_here | done].
    + change (join_sep (x :: y :: l)) with (x ++ String sep (join_sep (y :: l))) in H.
      destruct (str_in_around_sep _ _ _ Hs H) as [Hx|Hr].
      * right. exists x. split; [apply list_elem_of_here | done].
      * destruct (IH Hr) as [->|(z & Hz & Hin)]; [by left|].
        right. exists z. split; [by apply list_elem_of_further | done].
Qed.

Lemma split_sep_head s :
  exists x r, split_sep s = x :: r /\ startswith s x = true.
Proof.
  induction s as [|c s (x & r & Hx & Hp)].
  - by exists "", [].
  - cbn [split_sep]. destruct (Ascii.eqb c sep).
    + by exists "", (split_sep s).
    + rewrite Hx. exists (String c x), r. split; [done|].
      cbn [startswith]. by rewrite Ascii.eqb_refl.
Qed.

Lemma split_sep_str_in s part : part ∈ split_sep s -> str_in part s = true.
Proof.
  revert part. induction s as [|c s IH]; intros part Hin.
  - cbn [split_sep] in Hin. apply list_elem_of_singleton in Hin as ->. done.
  - cbn [split_sep] in Hin. destruct (Ascii.eqb c sep).
    + apply elem_of_cons in Hin as [->|Hin]; [apply str_in_nil|].
      apply str_in_cons. auto.
    + destruct (split_sep_head s) as (x & r & Hx & Hp). rewrite Hx in *.
      apply elem_of_cons in Hin as [->|Hin].
      * apply str_in_startswith. cbn [startswith]. by rewrite Ascii.eqb_refl.
      * apply str_in_cons, IH. by apply list_elem_of_further.
Qed.

Lemma strip_parts_elem pre l rest x :
  strip_parts pre l = Some rest -> x ∈ rest -> x ∈ l.
Proof.
  revert l. induction pre as [|p pre IH]; intros l H Hin; cbn [strip_parts] in H.
  - by injection H as ->.
  - destruct l as [|y l]; [done|]. destruct (String.eqb p y); [|done].
    apply list_elem_of_further. eauto.
Qed.

Lemma splitroot_str_in s a :
  str_in a (snd (splitroot s)) = true -> str_in a s = true.
Proof.
  unfold splitroot.
  destruct s as [|c1 s1]; [done|].
  destruct (Ascii.eqb c1 sep); [|done].
  destruct s1 as [|c2 s2]; [apply str_in_cons|].
  destruct (Ascii.eqb c2 sep); [|apply str_in_cons].
  destruct s2 as [|c3 s3]; cbn [snd].
  - intros H. by do 2 apply str_in_cons.
  - destruct (Ascii.eqb c3 sep); cbn [snd]; intros H.
    + by apply str_in_cons.
    + by do 2 apply str_in_cons.
Qed.

Lemma Path_tail_str_in s x : x ∈ tail (Path s) -> str_in x s = true.
Proof.
  unfold Path. destruct (splitroot s) as [r rel] eqn:Hsr. cbn [tail].
  intros Hin. apply list_elem_of_In, filter_In in Hin as [Hin _].
  apply list_elem_of_In, split_sep_str_in in Hin.
  apply splitroot_str_in. by rewrite Hsr.
Qed.

(** A separator-free pattern found in the relative path is found in the
    path the relative path was computed from. *)
Lemma relative_str_in s other rel pat :
  relative_to (Path s) other = Some rel ->
  has_sep pat = false -> pat <> "." ->
  str_in pat (str rel) = true -> str_in pat s = true.
Proof.
  unfold relative_to. intros Hrel Hs Hdot Hin.
  destruct (String.eqb _ _); [|done].
  destruct (strip_parts _ _) as [rest|] eqn:Hrest; [|done].
  injection Hrel as <-. unfold str in Hin. cbn [root tail] in Hin.
  rewrite append_nil_l in Hin.
  assert (Hj : pat = "" \/ str_in pat (join_sep rest) = true).
  { destruct (join_sep rest) eqn:Hj; [|by right].
    destruct pat as [|a [|b pat]]; [by left| |].
    - cbn in Hin. rewrite orb_false_r in Hin.
      destruct (Ascii.eqb a ".") eqn:Ha; [|done].
      apply Ascii.eqb_eq in Ha. by subst.
    - cbn in Hin. by destruct (Ascii.eqb a "."). }
  destruct Hj as [->|Hj]; [apply str_in_nil|].
  destruct (str_in_join_sep _ _ Hs Hj) as [->|(x & Hx & Hpx)]; [apply str_in_nil|].
  eapply str_in_trans; [exact Hpx|].
  apply Path_tail_str_in. eapply strip_parts_elem; eauto.
Qed.

(** ** The two ways through [restart_service] *)

Lemma Qltb_lt x y : Qltb x y = true <-> (x < y)%Q.
Proof. unfold Qltb. rewrite Qlt_alt. destruct (x ?= y)%Q; split; congruence. Qed.

Lemma Qltb_ge x y : Qltb x y = false <-> (y <= x)%Q.
Proof.
  rewrite <- not_true_iff_false, Qltb_lt. split; [apply Qnot_lt_le | apply Qle_not_lt].
Qed.

Section Restart.
Variable cfg : config.
Variable E : env.
Variable service : string.
Variable w : world.

Local Abbreviation now := (time_time E).
Local Abbreviation answer := (subprocess_run E (restart_argv service)).

Lemma restart_service_skipped :
  debounced cfg (last_restart (self w)) service now = true ->
  restart_service cfg E service w = (Ok tt, w).
Proof.
  intros H. unfold restart_service, bind, get_last_restart. by rewrite H.
Qed.

Lemma restart_service_passed :
  debounced cfg (last_restart (self w)) service now = false ->
  restart_service cfg E service w
  = (snd (verdict service answer),
     mkWorld (stamped (self w) service now)
             (trace w ++ attempt service now ++ fst (verdict service answer))%list).
Proof.
  intros H. unfold restart_service, bind, get_last_restart. rewrite H.
  unfold try_except, run, bind, lift, print, emit, set_last_restart, verdict, attempt,
    stamped.
  cbn [self trace]. fold (restart_argv service).
  destruct answer as [r|e].
  - destruct (returncode r =? 0)%Z; cbn [self trace fst snd];
      rewrite <- !app_assoc; reflexivity.
  - destruct (is_Exception e); cbn [self trace fst snd];
      rewrite <- !app_assoc, ?app_nil_r; reflexivity.
Qed.

Lemma runs_app t1 t2 : runs (t1 ++ t2) = (runs t1 ++ runs t2)%list.
Proof.
  induction t1 as [|[] t1 IH]; cbn [runs app]; [done| | |]; by rewrite ?IH.
Qed.

Lemma runs_verdict o : runs (fst (verdict service o)) = [].
Proof.
  destruct o as [r|e]; cbn [verdict].
  - by destruct (returncode r =? 0)%Z.
  - by destruct (is_Exception e).
Qed.

Lemma runs_restart_passed :
  debounced cfg (last_restart (self w)) service now = false ->
  runs (trace (snd (restart_service cfg E service w)))
  = (runs (trace w) ++ [restart_argv service])%list.
Proof.
  intros H. rewrite restart_service_passed by done. cbn [snd trace].
  by rewrite !runs_app, runs_verdict, app_nil_r.
Qed.

End Restart.

(** ** The debounce *)

(** C1. A second [restart_service] for the same service less than
    [DEBOUNCE_SECONDS] after a first one that was not skipped changes
    nothing: it prints nothing, calls no subprocess and leaves the handler
    as it is, so that the two calls together invoke the process manager
    exactly once. *)
Theorem debounce_idempotence cfg E1 E2 service w :
  debounced cfg (last_restart (self w)) service (time_time E1) = false ->
  (time_time E2 - time_time E1 < DEBOUNCE_SECONDS cfg)%Q ->
  let w1 := snd (restart_service cfg E1 service w) in
  restart_service cfg E2 service w1 = (Ok tt, w1) /\
  runs (trace (snd (restart_service cfg E2 service w1)))
  = (runs (trace w) ++ [restart_argv service])%list.
Proof.
  intros H1 Hlt w1.
  assert (Hskip : restart_service cfg E2 service w1 = (Ok tt, w1)).
  { apply restart_service_skipped. subst w1.
    rewrite restart_service_passed by done. cbn [snd self stamped last_restart].
    unfold debounced. rewrite lookup_insert_eq. by apply Qltb_lt. }
  split; [done|]. rewrite Hskip. cbn [snd]. subst w1.
  by apply runs_restart_passed.
Qed.

Lemma debounce_idempotence_witness :
  debounced deployed (last_restart (self fresh)) "animation" (time_time (succeeds 100)) = false /\
  (time_time (succeeds 101) - time_time (succeeds 100) < DEBOUNCE_SECONDS deployed)%Q /\
  let w1 := snd (restart_service deployed (succeeds 100) "animation" fresh) in
  restart_service deployed (succeeds 101) "animation" w1 = (Ok tt, w1) /\
  runs (trace (snd (restart_service deployed (succeeds 101) "animation" w1)))
  = (runs (trace fresh) ++ [restart_argv "animation"])%list.
Proof.
  split; [reflexivity|]. split; [reflexivity|].
  apply (debounce_idempotence deployed (succeeds 100) (succeeds 101) "animation" fresh);
    reflexivity.
Defined.

(** C2. When [restart_service] passes the debounce test, the store of the
    current time into [self.last_restart[service]] comes before the call of
    the process manager, nothing but prints follows that call, and the entry
    still holds that time when [restart_service] ends, whatever the process
    manager answers: success, a failure status or an exception. *)
Theorem stamp_precedes_run cfg E service w :
  debounced cfg (last_restart (self w)) service (time_time E) = false ->
  let w' := snd (restart_service cfg E service w) in
  exists banner post,
    trace w' = (trace w ++ Store service (time_time E) :: banner
                        ++ Run (restart_argv service) :: post)%list /\
    Forall (fun e => exists line, e = Print line) banner /\
    Forall (fun e => exists line, e = Print line) post /\
    last_restart (self w') !! service = Some (time_time E).
Proof.
  intros H w'. subst w'. rewrite restart_service_passed by done.
  cbn [snd trace self stamped last_restart].
  eexists [_; _; _], (fst (verdict service (subprocess_run E (restart_argv service)))).
  split; [reflexivity|]. split; [|split].
  - repeat constructor; eauto.
  - destruct (subprocess_run E (restart_argv service)) as [r|e]; cbn [verdict].
    + destruct (returncode r =? 0)%Z; repeat constructor; eauto.
    + destruct (is_Exception e); repeat constructor; eauto.
  - apply lookup_insert_eq.
Qed.

Lemma stamp_precedes_run_witness :
  debounced deployed (last_restart (self fresh)) "livestream" (time_time (not_started 7)) = false /\
  let w' := snd (restart_service deployed (not_started 7) "livestream" fresh) in
  exists banner post,
    trace w' = (trace fresh ++ Store "livestream" (time_time (not_started 7)) :: banner
                            ++ Run (restart_argv "livestream") :: post)%list /\
    Forall (fun e => exists line, e = Print line) banner /\
    Forall (fun e => exists line, e = Print line) post /\
    last_restart (self w') !! "livestream" = Some (time_time (not_started 7)).
Proof.
  split; [reflexivity|].
  apply (stamp_precedes_run deployed (not_started 7) "livestream" fresh). reflexivity.
Defined.

(** C5. Two [restart_service] calls for the same service more than
    [DEBOUNCE_SECONDS] apart, the first of them not held back by an earlier
    restart, both pass the debounce test and invoke the process manager
    twice. *)
Theorem debounce_expiry cfg E1 E2 service w :
  (forall t, last_restart (self w) !! service = Some t ->
             (DEBOUNCE_SECONDS cfg <= time_time E1 - t)%Q) ->
  (DEBOUNCE_SECONDS cfg < time_time E2 - time_time E1)%Q ->
  let w1 := snd (restart_service cfg E1 service w) in
  let w2 := snd (restart_service cfg E2 service w1) in
  debounced cfg (last_restart (self w)) service (time_time E1) = false /\
  debounced cfg (last_restart (self w1)) service (time_time E2) = false /\
  runs (trace w2) = (runs (trace w) ++ [restart_argv service; restart_argv service])%list.
Proof.
  intros Hold Hgt w1 w2.
  assert (H1 : debounced cfg (last_restart (self w)) service (time_time E1) = false).
  { unfold debounced. destruct (last_restart (self w) !! service) as [t|] eqn:Ht; [|done].
    apply Qltb_ge. auto. }
  assert (H2 : debounced cfg (last_restart (self w1)) service (time_time E2) = false).
  { subst w1. rewrite restart_service_passed by done. cbn [snd self stamped last_restart].
    unfold debounced. rewrite lookup_insert_eq. apply Qltb_ge. by apply Qlt_le_weak. }
  split; [done|]. split; [done|]. subst w2.
  rewrite runs_restart_passed by done. subst w1.
  rewrite runs_restart_passed by done. by rewrite <- app_assoc.
Qed.

Lemma debounce_expiry_witness :
  (forall t, last_restart (self fresh) !! "animation" = Some t ->
             (DEBOUNCE_SECONDS deployed <= time_time (succeeds 100) - t)%Q) /\
  (DEBOUNCE_SECONDS deployed < time_time (exits_1 (205 # 2)) - time_time (succeeds 100))%Q /\
  let w1 := snd (restart_service deployed (succeeds 100) "animation" fresh) in
  let w2 := snd (restart_service deployed (exits_1 (205 # 2)) "animation" w1) in
  debounced deployed (last_restart (self fresh)) "animation" (time_time (succeeds 100)) = false /\
  debounced deployed (last_restart (self w1)) "animation" (time_time (exits_1 (205 # 2))) = false /\
  runs (trace w2)
  = (runs (trace fresh) ++ [restart_argv "animation"; restart_argv "animation"])%list.
Proof.
  split; [intros t Ht; discriminate Ht|]. split; [reflexivity|].
  apply (debounce_expiry deployed (succeeds 100) (exits_1 (205 # 2)) "animation" fresh);
    [intros t Ht; discriminate Ht | reflexivity].
Defined.

Lemma debounced_with_entry cfg s1 s2 v last now :
  s1 <> s2 ->
  debounced cfg (partial_alter (fun _ => v) s2 last) s1 now = debounced cfg last s1 now.
Proof. intros Hne. unfold debounced. by rewrite lookup_partial_alter_ne. Qed.

(** C6. For two different services, [restart_service s1] leaves the entry of
    [s2] in [self.last_restart] as it is and does not depend on it: with any
    other entry for [s2] it returns the same result and the same trace.  So
    when neither service is held back by an earlier restart of its own,
    [restart_service s1] and [restart_service s2] at the same reading of the
    clock both invoke the process manager. *)
Theorem debounce_per_service cfg E s1 s2 w :
  s1 <> s2 ->
  let w1 := snd (restart_service cfg E s1 w) in
  last_restart (self w1) !! s2 = last_restart (self w) !! s2 /\
  (forall v, restart_service cfg E s1 (with_entry s2 v w)
             = (fst (restart_service cfg E s1 w), with_entry s2 v w1)) /\
  (forall E', time_time E' = time_time E ->
     debounced cfg (last_restart (self w)) s1 (time_time E) = false ->
     debounced cfg (last_restart (self w)) s2 (time_time E) = false ->
     runs (trace (snd (restart_service cfg E' s2 w1)))
     = (runs (trace w) ++ [restart_argv s1; restart_argv s2])%list).
Proof.
  intros Hne w1. subst w1.
  destruct (debounced cfg (last_restart (self w)) s1 (time_time E)) eqn:Hd.
  - rewrite restart_service_skipped by done. cbn [fst snd]. split; [done|]. split; [|done].
    intros v. apply restart_service_skipped. cbn [with_entry self last_restart].
    by rewrite debounced_with_entry.
  - rewrite restart_service_passed by done. cbn [fst snd self stamped last_restart].
    split; [by apply lookup_insert_ne|]. split.
    + intros v. rewrite restart_service_passed
        by (cbn [with_entry self last_restart]; by rewrite debounced_with_entry).
      unfold with_entry, stamped. cbn [self trace last_restart pending_restarts].
      do 3 f_equal. by apply insert_partial_alter_ne.
    + intros E' Hnow _ H2. rewrite runs_restart_passed.
      * cbn [trace]. rewrite !runs_app, runs_verdict, app_nil_r.
        by rewrite <- app_assoc.
      * cbn [self stamped last_restart]. rewrite Hnow. unfold debounced in *.
        by rewrite lookup_insert_ne.
Qed.

Lemma debounce_per_service_witness :
  "animation" <> "livestream" /\
  let w1 := snd (restart_service deployed (succeeds 5) "animation" fresh) in
  last_restart (self w1) !! "livestream" = last_restart (self fresh) !! "livestream" /\
  (forall v, restart_service deployed (succeeds 5) "animation" (with_entry "livestream" v fresh)
             = (fst (restart_service deployed (succeeds 5) "animation" fresh),
                with_entry "livestream" v w1)) /\
  (forall E', time_time E' = time_time (succeeds 5) ->
     debounced deployed (last_restart (self fresh)) "animation" (time_time (succeeds 5)) = false ->
     debounced deployed (last_restart (self fresh)) "livestream" (time_time (succeeds 5)) = false ->
     runs (trace (snd (restart_service deployed E' "livestream" w1)))
     = (runs (trace fresh) ++ [restart_argv "animation"; restart_argv "livestream"])%list).
Proof.
  split; [discriminate|].
  apply (debounce_per_service deployed (succeeds 5) "animation" "livestream" fresh).
  discriminate.
Defined.

(** ** Failures of the process manager *)

(** C7, as amended. A failure of the process manager, be it a status other
    than zero or an exception of class [Exception] raised by the invocation,
    never leaves [restart_service] as an exception; when the debounce test
    passes, the failure is reported by one printed line after the banner and
    the call: ["Failed to restart"] with the captured [stderr] in the first
    case, ["Error restarting"] with the text of the exception in the second.
    The handler is left the same in both cases. *)
Theorem restart_failure_handled cfg E service w :
  failed (subprocess_run E (restart_argv service)) ->
  fst (restart_service cfg E service w) = Ok tt /\
  (debounced cfg (last_restart (self w)) service (time_time E) = false ->
   snd (restart_service cfg E service w)
   = mkWorld (stamped (self w) service (time_time E))
             (trace w ++ attempt service (time_time E)
                      ++ [Print (failure_line service
                                   (subprocess_run E (restart_argv service)))])%list).
Proof.
  intros Hf.
  destruct (debounced cfg (last_restart (self w)) service (time_time E)) eqn:Hd.
  - by rewrite restart_service_skipped.
  - rewrite restart_service_passed by done. cbn [fst snd].
    unfold failed in Hf. unfold verdict, failure_line.
    destruct (subprocess_run E (restart_argv service)) as [r|e].
    + apply Z.eqb_neq in Hf. rewrite Hf. by split.
    + rewrite Hf. by split.
Qed.

Lemma restart_failure_handled_witness :
  failed (subprocess_run (exits_1 3) (restart_argv "animation")) /\
  fst (restart_service deployed (exits_1 3) "animation" fresh) = Ok tt /\
  (debounced deployed (last_restart (self fresh)) "animation" (time_time (exits_1 3)) = false ->
   snd (restart_service deployed (exits_1 3) "animation" fresh)
   = mkWorld (stamped (self fresh) "animation" (time_time (exits_1 3)))
             (trace fresh ++ attempt "animation" (time_time (exits_1 3))
                      ++ [Print (failure_line "animation"
                                   (subprocess_run (exits_1 3) (restart_argv "animation")))])%list).
Proof.
  split; [discriminate|].
  apply (restart_failure_handled deployed (exits_1 3) "animation" fresh). discriminate.
Defined.

(** C7, as first stated, fails: with the same diagnostic text, a failure
    status and a failed invocation are not reported by the same line. *)
Lemma failure_reports_differ :
  printed (trace (snd (restart_service deployed (exits_1 0) "animation" fresh)))
  <> printed (trace (snd (restart_service deployed (not_started 0) "animation" fresh))).
Proof. vm_compute. discriminate. Qed.

(** ** Classification *)

Lemma scan_first_match items rel_path pattern service :
  first_match items rel_path pattern service -> scan items rel_path = service.
Proof.
  intros (pre & post & -> & Hm & Hpre).
  induction Hpre as [|[p s] pre Hp _ IH]; cbn [scan app].
  - by rewrite Hm.
  - cbn [fst] in Hp. by rewrite Hp.
Qed.

Lemma scan_no_match items rel_path :
  no_match items rel_path -> scan items rel_path = None.
Proof.
  induction 1 as [|[p s] items Hp _ IH]; cbn [scan]; [done|].
  cbn [fst] in Hp. by rewrite Hp.
Qed.

(** C3. The scan of the rule table returns the service of the first rule,
    in declared order, whose pattern is a prefix of the relative path or,
    with its trailing separators stripped, equal to it; later rules that
    match as well are not looked at.  [get_service] returns that service for
    every path with that relative path. *)
Theorem first_rule_wins items rel_path pattern service :
  first_match items rel_path pattern service ->
  scan items rel_path = service /\
  (forall cfg path,
     SERVICE_MAP cfg = items -> rel_path_of cfg path = Ok rel_path ->
     get_service cfg path = Ok service).
Proof.
  intros Hfm. split; [by apply (scan_first_match _ _ pattern)|].
  intros cfg path <- Hrel. unfold get_service. rewrite Hrel.
  by rewrite (scan_first_match _ _ _ _ Hfm).
Qed.

Lemma first_rule_wins_witness :
  first_match (SERVICE_MAP app_cfg) "frontend/sub/x.js" "frontend/" (Some "livestream") /\
  rule_matches "frontend/sub/x.js" "frontend/sub/" = true /\
  scan (SERVICE_MAP app_cfg) "frontend/sub/x.js" = Some "livestream" /\
  (forall cfg path,
     SERVICE_MAP cfg = SERVICE_MAP app_cfg -> rel_path_of cfg path = Ok "frontend/sub/x.js" ->
     get_service cfg path = Ok (Some "livestream")).
Proof.
  assert (H : first_match (SERVICE_MAP app_cfg) "frontend/sub/x.js" "frontend/"
                          (Some "livestream")).
  { exists [], [("frontend/sub/", Some "other")]. repeat split; constructor. }
  split; [exact H|]. split; [reflexivity|].
  exact (first_rule_wins (SERVICE_MAP app_cfg) "frontend/sub/x.js" "frontend/"
                         (Some "livestream") H).
Defined.

(** C10. [get_service] returns [None] both when the first matching rule
    names no service and when no rule matches, and [on_modified] then does
    nothing in either case: no line is printed, no restart is attempted and
    the handler is unchanged. *)
Theorem suppressed_and_unmatched_alike cfg E ev w rel_path :
  rel_path_of cfg (src_path ev) = Ok rel_path ->
  (exists pattern, first_match (SERVICE_MAP cfg) rel_path pattern None) \/
  no_match (SERVICE_MAP cfg) rel_path ->
  get_service cfg (src_path ev) = Ok None /\
  on_modified cfg E ev w = (Ok tt, w).
Proof.
  intros Hrel Hcase.
  assert (Hs : get_service cfg (src_path ev) = Ok None).
  { unfold get_service. rewrite Hrel. f_equal.
    destruct Hcase as [[pattern Hfm]|Hno];
      [by apply (scan_first_match _ _ pattern) | by apply scan_no_match]. }
  split; [done|]. unfold on_modified.
  destruct (is_directory ev); [done|].
  destruct (should_ignore cfg (src_path ev)); [done|].
  unfold bind, lift. by rewrite Hs.
Qed.

Lemma suppressed_and_unmatched_alike_witness :
  rel_path_of deployed (src_path (mkEvent false "/home/liveStream/tools/build.py"))
  = Ok "tools/build.py" /\
  ((exists pattern, first_match (SERVICE_MAP deployed) "tools/build.py" pattern None) \/
   no_match (SERVICE_MAP deployed) "tools/build.py") /\
  get_service deployed (src_path (mkEvent false "/home/liveStream/tools/build.py")) = Ok None /\
  on_modified deployed (succeeds 1) (mkEvent false "/home/liveStream/tools/build.py") fresh
  = (Ok tt, fresh).
Proof.
  assert (H : (exists pattern, first_match (SERVICE_MAP deployed) "tools/build.py" pattern None) \/
              no_match (SERVICE_MAP deployed) "tools/build.py").
  { left. exists "tools/".
    exists [ ("animation-server/", Some "animation"); ("frontend/", Some "livestream");
             ("server.js", Some "livestream"); ("voices.js", Some "livestream") ], [].
    repeat split; repeat constructor. }
  split; [reflexivity|]. split; [exact H|].
  exact (suppressed_and_unmatched_alike deployed (succeeds 1)
           (mkEvent false "/home/liveStream/tools/build.py") fresh "tools/build.py"
           eq_refl H).
Defined.

(** ** The ignore filter *)

Lemma deployed_patterns_plain pattern :
  pattern ∈ IGNORE_PATTERNS deployed -> has_sep pattern = false /\ pattern <> ".".
Proof.
  intros Hin. cbn [IGNORE_PATTERNS deployed] in Hin.
  repeat (apply elem_of_cons in Hin as [->|Hin]; [by split|]).
  by apply elem_of_nil in Hin.
Qed.

(** C4. An event on a path under [WATCH_DIR] whose relative path contains
    one of the ignore patterns is dropped by [should_ignore], before the
    rule table is consulted: whatever the rule table is, [on_modified]
    prints nothing, attempts no restart and returns. *)
Theorem ignored_before_classification items E ev w rel pattern :
  is_directory ev = false ->
  relative_to (Path (src_path ev)) (WATCH_DIR deployed) = Some rel ->
  pattern ∈ IGNORE_PATTERNS deployed ->
  str_in pattern (str rel) = true ->
  should_ignore (with_rules items) (src_path ev) = true /\
  on_modified (with_rules items) E ev w = (Ok tt, w).
Proof.
  intros Hfile Hrel Hin Hsub.
  assert (Hig : should_ignore (with_rules items) (src_path ev) = true).
  { unfold should_ignore. apply existsb_exists. exists pattern.
    split; [by apply list_elem_of_In|].
    destruct (deployed_patterns_plain _ Hin) as [Hs Hdot].
    eapply relative_str_in; eauto. }
  split; [done|]. unfold on_modified. by rewrite Hfile, Hig.
Qed.

Lemma ignored_before_classification_witness :
  is_directory (mkEvent false "/home/liveStream/frontend/node_modules/x/index.js") = false /\
  relative_to (Path (src_path (mkEvent false "/home/liveStream/frontend/node_modules/x/index.js")))
              (WATCH_DIR deployed)
  = Some (mkPath "" ["frontend"; "node_modules"; "x"; "index.js"]) /\
  "node_modules" ∈ IGNORE_PATTERNS deployed /\
  str_in "node_modules" (str (mkPath "" ["frontend"; "node_modules"; "x"; "index.js"])) = true /\
  should_ignore (with_rules (SERVICE_MAP deployed))
                (src_path (mkEvent false "/home/liveStream/frontend/node_modules/x/index.js"))
  = true /\
  on_modified (with_rules (SERVICE_MAP deployed)) (succeeds 1)
              (mkEvent false "/home/liveStream/frontend/node_modules/x/index.js") fresh
  = (Ok tt, fresh).
Proof.
  assert (Hin : "node_modules" ∈ IGNORE_PATTERNS deployed) by apply list_elem_of_here.
  split; [reflexivity|]. split; [reflexivity|]. split; [exact Hin|]. split; [reflexivity|].
  exact (ignored_before_classification (SERVICE_MAP deployed) (succeeds 1)
           (mkEvent false "/home/liveStream/frontend/node_modules/x/index.js") fresh
           (mkPath "" ["frontend"; "node_modules"; "x"; "index.js"]) "node_modules"
           eq_refl eq_refl Hin eq_refl).
Defined.

(** ** Paths outside the watched directory *)

(** C8, as amended. For a path that is not [WATCH_DIR] or below it,
    [get_service] does not return: [relative_to] raises [ValueError].  For a
    file event on such a path that the ignore filter lets through,
    [on_modified] prints nothing and attempts no restart, and ends with that
    [ValueError]. *)
Theorem outside_root_raises cfg E ev w :
  relative_to (Path (src_path ev)) (WATCH_DIR cfg) = None ->
  is_directory ev = false ->
  should_ignore cfg (src_path ev) = false ->
  exists msg,
    get_service cfg (src_path ev) = Raised (ValueError msg) /\
    on_modified cfg E ev w = (Raised (ValueError msg), w).
Proof.
  intros Hrel Hfile Hig. eexists. split.
  - unfold get_service, rel_path_of. rewrite Hrel. reflexivity.
  - unfold on_modified, bind, lift, get_service, rel_path_of.
    rewrite Hfile, Hig, Hrel. reflexivity.
Qed.

Lemma outside_root_raises_witness :
  relative_to (Path (src_path (mkEvent false "/etc/passwd"))) (WATCH_DIR deployed) = None /\
  is_directory (mkEvent false "/etc/passwd") = false /\
  should_ignore deployed (src_path (mkEvent false "/etc/passwd")) = false /\
  exists msg,
    get_service deployed (src_path (mkEvent false "/etc/passwd")) = Raised (ValueError msg) /\
    on_modified deployed (succeeds 1) (mkEvent false "/etc/passwd") fresh
    = (Raised (ValueError msg), fresh).
Proof.
  split; [reflexivity|]. split; [reflexivity|]. split; [reflexivity|].
  apply (outside_root_raises deployed (succeeds 1) (mkEvent false "/etc/passwd") fresh);
    reflexivity.
Defined.

(** C8, as first stated, fails: on a path outside [WATCH_DIR] that the
    ignore filter lets through, the classification is not the no-match
    outcome and [on_modified] does not return normally. *)
Lemma outside_root_not_no_match :
  should_ignore deployed "/etc/passwd" = false /\
  relative_to (Path "/etc/passwd") (WATCH_DIR deployed) = None /\
  get_service deployed "/etc/passwd" <> Ok None /\
  fst (on_modified deployed (succeeds 1) (mkEvent false "/etc/passwd") fresh) <> Ok tt.
Proof. repeat split; try reflexivity; vm_compute; discriminate. Qed.

(** ** Creation events *)

(** C9. [on_created] is [on_modified]: for every event, every handler state
    and every answer of the clock and the process manager, the two callbacks
    return the same result, print the same lines and restart the same
    services. *)
Theorem on_created_as_on_modified cfg E ev w :
  on_created cfg E ev w = on_modified cfg E ev w.
Proof. reflexivity. Qed.

(** ** The scenarios of the specification *)

Example Path_plain :
  Path "/home/liveStream/frontend/index.html"
  = mkPath "/" ["home"; "liveStream"; "frontend"; "index.html"].
Proof. reflexivity. Qed.

Example Path_normalises :
  Path "/home//liveStream/./a/" = mkPath "/" ["home"; "liveStream"; "a"].
Proof. reflexivity. Qed.

Example Path_two_slashes : root (Path "//home/liveStream") = "//".
Proof. reflexivity. Qed.

Example rstrip_sep_ex :
  rstrip_sep "tools//" = "tools" /\ rstrip_sep "a/b" = "a/b" /\ rstrip_sep "//" = "".
Proof. repeat split; reflexivity. Qed.

Example watch_dir_itself : get_service deployed "/home/liveStream" = Ok None.
Proof. reflexivity. Qed.

Example exact_name_rule : get_service deployed "/home/liveStream/server.js" = Ok (Some "livestream").
Proof. reflexivity. Qed.

Example stripped_rule : get_service deployed "/home/liveStream/tools" = Ok None.
Proof. reflexivity. Qed.

Example order_example :
  get_service app_cfg "/app/frontend/sub/x.js" = Ok (Some "livestream").
Proof. reflexivity. Qed.

Example file_change_restarts :
  on_modified deployed (succeeds 100) (mkEvent false "/home/liveStream/frontend/index.html") fresh
  = (Ok tt,
     mkWorld (stamped init "livestream" 100)
             (Print "Changed: frontend/index.html"
              :: attempt "livestream" 100
              ++ [Print "✓ livestream restarted successfully"])%list).
Proof. reflexivity. Qed.

Example tools_change_is_silent :
  on_modified deployed (succeeds 100) (mkEvent false "/home/liveStream/tools/build.py") fresh
  = (Ok tt, fresh).
Proof. reflexivity. Qed.

Example unmatched_change_is_silent :
  on_modified deployed (succeeds 100) (mkEvent false "/home/liveStream/README.md") fresh
  = (Ok tt, fresh).
Proof. reflexivity. Qed.

Example directory_event_is_discarded :
  on_modified deployed (succeeds 100) (mkEvent true "/home/liveStream/frontend") fresh
  = (Ok tt, fresh).
Proof. reflexivity. Qed.

Example failure_status_is_logged :
  printed (trace (snd (restart_service deployed (exits_1 0) "animation" fresh)))
  = [ String newline (repeat_char "=" 50); "Restarting animation...";
      repeat_char "=" 50; "✗ Failed to restart animation: unit not found" ].
Proof. reflexivity. Qed.

Example failed_invocation_is_logged :
  printed (trace (snd (restart_service deployed (not_started 0) "animation" fresh)))
  = [ String newline (repeat_char "=" 50); "Restarting animation...";
      repeat_char "=" 50; "✗ Error restarting animation: unit not found" ].
Proof. reflexivity. Qed.

Example interrupt_is_not_caught :
  fst (restart_service deployed (mkEnv 0 (fun _ => Raised KeyboardInterrupt)) "animation" fresh)
  = Raised KeyboardInterrupt.
Proof. reflexivity. Qed.


(** * Further properties of the handler *)

(** ** One callback, case by case *)

Lemma scan_Some items rel_path s :
  scan items rel_path = Some s ->
  exists pattern, (pattern, Some s) ∈ items /\ first_match items rel_path pattern (Some s).
Proof.
  induction items as [|[p o] items IH]; cbn [scan]; [done|].
  destruct (rule_matches rel_path p) eqn:Hm.
  - intros ->. exists p. split; [apply list_elem_of_here|].
    exists [], items. by repeat split.
  - intros (pattern & Hin & pre & post & -> & Hp & Hpre)%IH.
    exists pattern. split; [by apply list_elem_of_further|].
    exists ((p, o) :: pre), post. repeat split; [done|]. by constructor.
Qed.

(** What [on_modified] comes down to: nothing at all, the [ValueError] of a
    path outside [WATCH_DIR], or the line for the changed path followed by
    [restart_service] for a service of the rule table. *)
Lemma on_modified_cases cfg E ev w :
  on_modified cfg E ev w = (Ok tt, w) \/
  (exists msg,
     is_directory ev = false /\ should_ignore cfg (src_path ev) = false /\
     relative_to (Path (src_path ev)) (WATCH_DIR cfg) = None /\
     on_modified cfg E ev w = (Raised (ValueError msg), w)) \/
  (exists pattern c s rel,
     is_directory ev = false /\ should_ignore cfg (src_path ev) = false /\
     relative_to (Path (src_path ev)) (WATCH_DIR cfg) = Some rel /\
     (pattern, Some (String c s)) ∈ SERVICE_MAP cfg /\
     first_match (SERVICE_MAP cfg) (str rel) pattern (Some (String c s)) /\
     on_modified cfg E ev w = restart_service cfg E (String c s) (announce (str rel) w)).
Proof.
  unfold on_modified.
  destruct (is_directory ev) eqn:Hdir; [by left|].
  destruct (should_ignore cfg (src_path ev)) eqn:Hig; [by left|].
  unfold bind, lift, get_service, rel_path_of.
  destruct (relative_to (Path (src_path ev)) (WATCH_DIR cfg)) as [rel|] eqn:Hrel.
  - destruct (scan (SERVICE_MAP cfg) (str rel)) as [[|c s]|] eqn:Hscan; [by left| |by left].
    right; right. destruct (scan_Some _ _ _ Hscan) as (pattern & Hin & Hfm).
    exists pattern, c, s, rel. repeat split; try done.
  - right; left. eexists. repeat split; done.
Qed.

Lemma restart_service_cases cfg E service w :
  restart_service cfg E service w = (Ok tt, w) /\
    debounced cfg (last_restart (self w)) service (time_time E) = true
  \/
  restart_service cfg E service w
  = (snd (verdict service (subprocess_run E (restart_argv service))),
     mkWorld (stamped (self w) service (time_time E))
             (trace w ++ attempt service (time_time E)
                      ++ fst (verdict service (subprocess_run E (restart_argv service))))%list) /\
    debounced cfg (last_restart (self w)) service (time_time E) = false.
Proof.
  destruct (debounced cfg (last_restart (self w)) service (time_time E)) eqn:Hd.
  - left. split; [by apply restart_service_skipped | done].
  - right. split; [by apply restart_service_passed | done].
Qed.

(** X1. A file change that the ignore filter lets through and whose first
    matching rule names a service is handled as: print the line for the
    changed relative path, then [restart_service] for that service. *)
Theorem changed_path_then_restart cfg E ev w rel pattern service :
  is_directory ev = false ->
  should_ignore cfg (src_path ev) = false ->
  relative_to (Path (src_path ev)) (WATCH_DIR cfg) = Some rel ->
  first_match (SERVICE_MAP cfg) (str rel) pattern (Some service) ->
  service <> "" ->
  on_modified cfg E ev w = restart_service cfg E service (announce (str rel) w).
Proof.
  intros Hdir Hig Hrel Hfm Hne.
  unfold on_modified, bind, lift, get_service, rel_path_of.
  rewrite Hdir, Hig, Hrel, (scan_first_match _ _ _ _ Hfm).
  by destruct service.
Qed.

Lemma changed_path_then_restart_witness :
  on_modified deployed (succeeds 9) (mkEvent false "/home/liveStream/voices.js") fresh
  = restart_service deployed (succeeds 9) "livestream" (announce "voices.js" fresh).
Proof.
  apply (changed_path_then_restart deployed (succeeds 9)
           (mkEvent false "/home/liveStream/voices.js") fresh
           (mkPath "" ["voices.js"]) "voices.js" "livestream");
    try reflexivity; [|discriminate].
  exists [ ("animation-server/", Some "animation"); ("frontend/", Some "livestream");
           ("server.js", Some "livestream") ], [("tools/", None)].
  repeat split; repeat constructor.
Defined.

(** X2. A change for a service that was restarted less than
    [DEBOUNCE_SECONDS] ago is not entirely silent: [on_modified] still prints
    the line for the changed path, and nothing else happens. *)
Theorem debounced_change_still_announced cfg E ev w rel pattern service :
  is_directory ev = false ->
  should_ignore cfg (src_path ev) = false ->
  relative_to (Path (src_path ev)) (WATCH_DIR cfg) = Some rel ->
  first_match (SERVICE_MAP cfg) (str rel) pattern (Some service) ->
  service <> "" ->
  debounced cfg (last_restart (self w)) service (time_time E) = true ->
  on_modified cfg E ev w = (Ok tt, announce (str rel) w).
Proof.
  intros Hdir Hig Hrel Hfm Hne Hd.
  unfold on_modified, bind, lift, get_service, rel_path_of.
  rewrite Hdir, Hig, Hrel, (scan_first_match _ _ _ _ Hfm).
  destruct service as [|c s]; [done|].
  cbn [print emit]. by apply restart_service_skipped.
Qed.

Lemma debounced_change_still_announced_witness :
  on_modified deployed (succeeds 9) (mkEvent false "/home/liveStream/voices.js")
              (mkWorld (stamped init "livestream" 8) [])
  = (Ok tt, announce "voices.js" (mkWorld (stamped init "livestream" 8) [])).
Proof.
  apply (debounced_change_still_announced deployed (succeeds 9)
           (mkEvent false "/home/liveStream/voices.js")
           (mkWorld (stamped init "livestream" 8) [])
           (mkPath "" ["voices.js"]) "voices.js" "livestream");
    try reflexivity; [|discriminate].
  exists [ ("animation-server/", Some "animation"); ("frontend/", Some "livestream");
           ("server.js", Some "livestream") ], [("tools/", None)].
  repeat split; repeat constructor.
Defined.

(** X3. One callback invokes the process manager at most once, and only to
    restart a service that the rule table names. *)
Theorem only_table_services_restarted cfg E ev w :
  let w' := snd (on_modified cfg E ev w) in
  runs (trace w') = runs (trace w) \/
  exists pattern service,
    (pattern, Some service) ∈ SERVICE_MAP cfg /\
    runs (trace w') = (runs (trace w) ++ [["systemctl"; "restart"; service]])%list.
Proof.
  intros w'. subst w'.
  destruct (on_modified_cases cfg E ev w)
    as [->|[(msg & _ & _ & _ & ->)|(pattern & c & s & rel & _ & _ & _ & Hin & _ & ->)]];
    [by left | by left |].
  assert (Hruns : runs (trace (announce (str rel) w)) = runs (trace w)).
  { unfold announce. cbn [trace]. by rewrite runs_app, app_nil_r. }
  destruct (restart_service_cases cfg E (String c s) (announce (str rel) w))
    as [[-> _]|[_ Hd]].
  - by left.
  - right. exists pattern, (String c s). split; [done|].
    by rewrite runs_restart_passed, Hruns.
Qed.

(** X4. One callback never touches [pending_restarts], changes
    [last_restart] at most by storing the current reading of the clock under
    one service, and only adds to what the process has done so far. *)
Theorem callback_footprint cfg E ev w :
  let w' := snd (on_modified cfg E ev w) in
  pending_restarts (self w') = pending_restarts (self w) /\
  (last_restart (self w') = last_restart (self w) \/
   exists service,
     last_restart (self w') = <[service := time_time E]> (last_restart (self w))) /\
  exists added, trace w' = (trace w ++ added)%list.
Proof.
  intros w'. subst w'.
  destruct (on_modified_cases cfg E ev w)
    as [->|[(msg & _ & _ & _ & ->)|(pattern & c & s & rel & _ & _ & _ & _ & _ & ->)]];
    cbn [snd].
  - split; [done|]. split; [by left|]. exists []. by rewrite app_nil_r.
  - split; [done|]. split; [by left|]. exists []. by rewrite app_nil_r.
  - destruct (restart_service_cases cfg E (String c s) (announce (str rel) w))
      as [[-> _]|[-> _]]; cbn [snd self trace announce stamped pending_restarts last_restart].
    + split; [done|]. split; [by left|]. by eexists.
    + split; [done|]. split; [right; by eexists|].
      rewrite <- app_assoc. by eexists.
Qed.

(** X5. [on_modified] ends with an exception in two ways only: the
    [ValueError] of a path that is not under [WATCH_DIR], with nothing done,
    or an exception outside the class [Exception] that the call of the
    process manager raised. *)
Theorem callback_exceptions cfg E ev w e :
  fst (on_modified cfg E ev w) = Raised e ->
  (exists msg,
     e = ValueError msg /\
     relative_to (Path (src_path ev)) (WATCH_DIR cfg) = None /\
     snd (on_modified cfg E ev w) = w) \/
  (is_Exception e = false /\
   exists service, subprocess_run E (restart_argv service) = Raised e).
Proof.
  destruct (on_modified_cases cfg E ev w)
    as [->|[(msg & _ & _ & Hrel & ->)|(pattern & c & s & rel & _ & _ & _ & _ & _ & ->)]];
    cbn [fst snd].
  - done.
  - intros [= <-]. left. by exists msg.
  - destruct (restart_service_cases cfg E (String c s) (announce (str rel) w))
      as [[-> _]|[-> _]]; cbn [fst]; [done|].
    unfold verdict.
    destruct (subprocess_run E (restart_argv (String c s))) as [r|e'] eqn:Hrun.
    + by destruct (returncode r =? 0)%Z.
    + destruct (is_Exception e') eqn:He; [done|]. cbn [snd]. intros [= <-].
      right. split; [done|]. by exists (String c s).
Qed.

Lemma callback_exceptions_witness :
  fst (on_modified deployed (succeeds 1) (mkEvent false "/etc/passwd") fresh)
  = Raised (ValueError "'/etc/passwd' is not in the subpath of '/home/liveStream'") /\
  ((exists msg,
      ValueError "'/etc/passwd' is not in the subpath of '/home/liveStream'" = ValueError msg /\
      relative_to (Path (src_path (mkEvent false "/etc/passwd"))) (WATCH_DIR deployed) = None /\
      snd (on_modified deployed (succeeds 1) (mkEvent false "/etc/passwd") fresh) = fresh) \/
   (is_Exception (ValueError "'/etc/passwd' is not in the subpath of '/home/liveStream'") = false /\
    exists service,
      subprocess_run (succeeds 1) (restart_argv service)
      = Raised (ValueError "'/etc/passwd' is not in the subpath of '/home/liveStream'"))).
Proof.
  split; [reflexivity|].
  apply (callback_exceptions deployed (succeeds 1) (mkEvent false "/etc/passwd") fresh).
  reflexivity.
Defined.

(** ** More on the debounce window *)

(** X6. The window is closed on the left and open on the right: a second
    call exactly [DEBOUNCE_SECONDS] after a restart is not skipped. *)
Theorem debounce_boundary cfg E1 E2 service w :
  debounced cfg (last_restart (self w)) service (time_time E1) = false ->
  (time_time E2 - time_time E1 == DEBOUNCE_SECONDS cfg)%Q ->
  let w1 := snd (restart_service cfg E1 service w) in
  debounced cfg (last_restart (self w1)) service (time_time E2) = false /\
  runs (trace (snd (restart_service cfg E2 service w1)))
  = (runs (trace w) ++ [restart_argv service; restart_argv service])%list.
Proof.
  intros H1 Heq w1.
  assert (H2 : debounced cfg (last_restart (self w1)) service (time_time E2) = false).
  { subst w1. rewrite restart_service_passed by done. cbn [snd self stamped last_restart].
    unfold debounced. rewrite lookup_insert_eq. apply Qltb_ge. rewrite Heq. apply Qle_refl. }
  split; [done|]. rewrite runs_restart_passed by done. subst w1.
  rewrite runs_restart_passed by done. by rewrite <- app_assoc.
Qed.

Lemma debounce_boundary_witness :
  debounced deployed (last_restart (self fresh)) "animation" (time_time (succeeds 100)) = false /\
  (time_time (succeeds 102) - time_time (succeeds 100) == DEBOUNCE_SECONDS deployed)%Q /\
  debounced deployed
    (last_restart (self (snd (restart_service deployed (succeeds 100) "animation" fresh))))
    "animation" (time_time (succeeds 102)) = false /\
  runs (trace (snd (restart_service deployed (succeeds 102) "animation"
                      (snd (restart_service deployed (succeeds 100) "animation" fresh)))))
  = (runs (trace fresh) ++ [restart_argv "animation"; restart_argv "animation"])%list.
Proof.
  split; [reflexivity|]. split; [reflexivity|].
  apply (debounce_boundary deployed (succeeds 100) (succeeds 102) "animation" fresh);
    reflexivity.
Defined.

(** X7. A skipped call does not renew the window: the window is counted from
    the last restart that was carried out.  After a restart and a skipped
    call, a third call at least [DEBOUNCE_SECONDS] after the restart goes
    through, however close it is to the skipped one. *)
Theorem skipped_call_keeps_window cfg E1 E2 E3 service w :
  debounced cfg (last_restart (self w)) service (time_time E1) = false ->
  (time_time E2 - time_time E1 < DEBOUNCE_SECONDS cfg)%Q ->
  (DEBOUNCE_SECONDS cfg <= time_time E3 - time_time E1)%Q ->
  let w1 := snd (restart_service cfg E1 service w) in
  let w2 := snd (restart_service cfg E2 service w1) in
  let w3 := snd (restart_service cfg E3 service w2) in
  last_restart (self w2) !! service = Some (time_time E1) /\
  last_restart (self w3) !! service = Some (time_time E3) /\
  runs (trace w3) = (runs (trace w) ++ [restart_argv service; restart_argv service])%list.
Proof.
  intros H1 Hlt Hge w1 w2 w3.
  assert (Hl1 : last_restart (self w1) !! service = Some (time_time E1)).
  { subst w1. rewrite restart_service_passed by done. apply lookup_insert_eq. }
  assert (Hw2 : w2 = w1).
  { subst w2. rewrite restart_service_skipped; [done|].
    unfold debounced. rewrite Hl1. by apply Qltb_lt. }
  assert (H3 : debounced cfg (last_restart (self w2)) service (time_time E3) = false).
  { rewrite Hw2. unfold debounced. rewrite Hl1. by apply Qltb_ge. }
  split; [by rewrite Hw2|]. subst w3. split.
  - rewrite restart_service_passed by done. apply lookup_insert_eq.
  - rewrite runs_restart_passed by done. rewrite Hw2. subst w1.
    rewrite runs_restart_passed by done. by rewrite <- app_assoc.
Qed.

Lemma skipped_call_keeps_window_witness :
  runs (trace (snd (restart_service deployed (succeeds (5 # 2)) "animation"
                 (snd (restart_service deployed (succeeds (3 # 2)) "animation"
                    (snd (restart_service deployed (succeeds 0) "animation" fresh)))))))
  = (runs (trace fresh) ++ [restart_argv "animation"; restart_argv "animation"])%list.
Proof.
  apply (skipped_call_keeps_window deployed (succeeds 0) (succeeds (3 # 2))
           (succeeds (5 # 2)) "animation" fresh); [reflexivity | reflexivity | discriminate].
Defined.

(** X8. What [except Exception] lets through: when the call of the process
    manager raises an exception outside the class [Exception], the restart
    ends with that exception after the banner and the call, prints no
    verdict, and the service keeps the new time stamp. *)
Theorem interrupt_passes_through cfg E service w e :
  debounced cfg (last_restart (self w)) service (time_time E) = false ->
  subprocess_run E (restart_argv service) = Raised e ->
  is_Exception e = false ->
  restart_service cfg E service w
  = (Raised e,
     mkWorld (stamped (self w) service (time_time E))
             (trace w ++ attempt service (time_time E))%list).
Proof.
  intros Hd Hrun He. rewrite restart_service_passed by done.
  unfold verdict. rewrite Hrun, He. cbn [fst snd]. by rewrite app_nil_r.
Qed.

Lemma interrupt_passes_through_witness :
  restart_service deployed (mkEnv 4 (fun _ => Raised KeyboardInterrupt)) "animation" fresh
  = (Raised KeyboardInterrupt,
     mkWorld (stamped (self fresh) "animation" 4) (trace fresh ++ attempt "animation" 4)%list).
Proof.
  apply (interrupt_passes_through deployed (mkEnv 4 (fun _ => Raised KeyboardInterrupt))
           "animation" fresh KeyboardInterrupt); reflexivity.
Defined.

(** ** More on the filters *)

Lemma str_in_middle a p b : str_in p (a ++ p ++ b) = true.
Proof.
  induction a as [|c a IH].
  - rewrite append_nil_l. apply str_in_startswith.
    induction p as [|x p IHp]; [done|].
    rewrite append_cons. cbn [startswith]. by rewrite Ascii.eqb_refl.
  - rewrite append_cons. by apply str_in_cons.
Qed.

(** X9. The ignore filter is a substring test on the whole path: once a
    path is ignored, so is every path that contains it, in particular
    everything below an ignored directory. *)
Theorem ignored_under_extension cfg path before after :
  should_ignore cfg path = true ->
  should_ignore cfg (before ++ path ++ after) = true.
Proof.
  unfold should_ignore. rewrite !existsb_exists.
  intros (pattern & Hin & Hsub). exists pattern. split; [done|].
  eapply str_in_trans; [exact Hsub | apply str_in_middle].
Qed.

Lemma ignored_under_extension_witness :
  should_ignore deployed ("/home/liveStream/" ++ "frontend/node_modules" ++ "/pkg/index.js") = true.
Proof.
  apply (ignored_under_extension deployed "frontend/node_modules" "/home/liveStream/"
           "/pkg/index.js"). reflexivity.
Defined.

(** X10. A rule whose service is the empty string restarts nothing: the test
    [if service:] treats it like a rule without a service. *)
Theorem empty_service_name_is_no_service cfg E ev w rel pattern :
  relative_to (Path (src_path ev)) (WATCH_DIR cfg) = Some rel ->
  first_match (SERVICE_MAP cfg) (str rel) pattern (Some "") ->
  on_modified cfg E ev w = (Ok tt, w).
Proof.
  intros Hrel Hfm. unfold on_modified.
  destruct (is_directory ev); [done|].
  destruct (should_ignore cfg (src_path ev)); [done|].
  unfold bind, lift, get_service, rel_path_of.
  by rewrite Hrel, (scan_first_match _ _ _ _ Hfm).
Qed.

Lemma empty_service_name_is_no_service_witness :
  on_modified (with_rules [("docs/", Some ""); ("docs/api/", Some "livestream")]) (succeeds 1)
              (mkEvent false "/home/liveStream/docs/api/a.md") fresh
  = (Ok tt, fresh).
Proof.
  apply (empty_service_name_is_no_service
           (with_rules [("docs/", Some ""); ("docs/api/", Some "livestream")]) (succeeds 1)
           (mkEvent false "/home/liveStream/docs/api/a.md") fresh
           (mkPath "" ["docs"; "api"; "a.md"]) "docs/"); [reflexivity|].
  exists [], [("docs/api/", Some "livestream")]. repeat split; constructor.
Defined.

(** ** Rules and path components *)

Lemma split_sep_plain s x : x ∈ split_sep s -> has_sep x = false.
Proof.
  revert x. induction s as [|c s IH]; intros x Hin; cbn [split_sep] in Hin.
  - by apply list_elem_of_singleton in Hin as ->.
  - destruct (Ascii.eqb c sep) eqn:Hc.
    + apply elem_of_cons in Hin as [->|Hin]; [done | auto].
    + destruct (split_sep s) as [|y r].
      { apply list_elem_of_singleton in Hin as ->. cbn [has_sep]. by rewrite Hc. }
      apply elem_of_cons in Hin as [->|Hin].
      * cbn [has_sep]. rewrite Hc. apply IH, list_elem_of_here.
      * by apply IH, list_elem_of_further.
Qed.

Lemma Path_tail_plain s x : x ∈ tail (Path s) -> kept x = true /\ has_sep x = false.
Proof.
  unfold Path. destruct (splitroot s) as [r rel]. cbn [tail].
  intros [Hin Hk]%list_elem_of_In%filter_In. split; [done|].
  by apply (split_sep_plain rel), list_elem_of_In.
Qed.

Lemma rstrip_sep_directory d : has_sep d = false -> rstrip_sep (d ++ String sep "") = d.
Proof.
  induction d as [|c d IH]; [done|]. cbn [has_sep]. intros [Hc Hd]%orb_false_iff.
  rewrite append_cons. cbn [rstrip_sep]. rewrite (IH Hd). destruct d; [by rewrite Hc | done].
Qed.

Lemma startswith_has_sep x d : startswith x (d ++ String sep "") = true -> has_sep x = true.
Proof.
  revert x. induction d as [|a d IH]; intros [|b x]; try done.
  - rewrite append_nil_l. cbn [startswith has_sep].
    rewrite Ascii.eqb_sym. by destruct (Ascii.eqb b sep).
  - rewrite append_cons. cbn [startswith has_sep].
    destruct (Ascii.eqb a b); [|done]. intros H%IH. rewrite H. apply orb_true_r.
Qed.

Lemma has_sep_app x r : has_sep (x ++ String sep r) = true.
Proof.
  induction x as [|c x IH]; [done|]. rewrite append_cons. cbn [has_sep].
  rewrite IH. apply orb_true_r.
Qed.

Lemma startswith_first_component x r d :
  has_sep x = false -> has_sep d = false ->
  startswith (x ++ String sep r) (d ++ String sep "") = true -> x = d.
Proof.
  revert x. induction d as [|a d IH]; intros [|b x] Hx Hd; try done.
  - rewrite append_cons, append_nil_l. cbn [startswith has_sep] in *.
    apply orb_false_iff in Hx as [Hb _].
    rewrite (Ascii.eqb_sym sep b), Hb. done.
  - rewrite append_cons, append_nil_l. cbn [startswith has_sep] in *.
    apply orb_false_iff in Hd as [Ha _]. rewrite Ha. done.
  - rewrite !append_cons. cbn [startswith has_sep] in *.
    apply orb_false_iff in Hx as [_ Hx]. apply orb_false_iff in Hd as [_ Hd].
    destruct (Ascii.eqb a b) eqn:Hab; [|done]. apply Ascii.eqb_eq in Hab as ->.
    intros H. f_equal. by apply IH.
Qed.

Lemma startswith_directory d r : startswith (d ++ String sep r) (d ++ String sep "") = true.
Proof.
  induction d as [|c d IH].
  - rewrite !append_nil_l. cbn [startswith]. by rewrite Ascii.eqb_refl.
  - rewrite !append_cons. cbn [startswith]. by rewrite Ascii.eqb_refl.
Qed.

Lemma str_relative_cons x r :
  x <> "" -> str (mkPath "" (x :: r)) = join_sep (x :: r).
Proof.
  intros Hx. unfold str. cbn [root tail]. rewrite append_nil_l.
  destruct r as [|y r]; cbn [join_sep]; [by destruct x|].
  destruct x; [done|]. by rewrite append_cons.
Qed.

(** X11. A rule for a directory, written as its name followed by a slash,
    matches on a component boundary: it matches exactly the paths whose
    first component below [WATCH_DIR] is that name, the directory itself
    included; another name that merely begins alike does not match. *)
Theorem directory_rule_boundary cfg path rel d :
  relative_to (Path path) (WATCH_DIR cfg) = Some rel ->
  kept d = true -> has_sep d = false ->
  rule_matches (str rel) (d ++ "/") = true <-> exists rest, tail rel = (d :: rest)%list.
Proof.
  intros Hrel Hk Hd.
  unfold relative_to in Hrel. destruct (String.eqb _ _); [|done].
  destruct (strip_parts _ _) as [parts|] eqn:Hparts; [|done]. injection Hrel as <-.
  assert (Hplain : forall x, x ∈ parts -> x <> "" /\ has_sep x = false).
  { intros x Hx. destruct (Path_tail_plain path x) as [Hkx Hsx].
    - eapply strip_parts_elem; eauto.
    - split; [|done]. intros ->. done. }
  unfold rule_matches. cbn [tail].
  change (d ++ "/") with (d ++ String sep ""). rewrite (rstrip_sep_directory _ Hd).
  destruct parts as [|x [|y r]].
  - split; [|by intros [? ?]]. change (str (mkPath "" [])) with ".".
    intros [H|H]%orb_true_iff.
    + by apply startswith_has_sep in H.
    + apply String.eqb_eq in H as <-. done.
  - destruct (Hplain x) as [Hnx Hsx]; [apply list_elem_of_here|].
    rewrite str_relative_cons by done. cbn [join_sep]. split.
    + intros [H|H]%orb_true_iff.
      * apply startswith_has_sep in H. congruence.
      * apply String.eqb_eq in H as ->. by eexists.
    + intros [rest [= -> <-]]. rewrite String.eqb_refl. apply orb_true_r.
  - destruct (Hplain x) as [Hnx Hsx]; [apply list_elem_of_here|].
    rewrite str_relative_cons by done.
    change (join_sep (x :: y :: r)) with (x ++ String sep (join_sep (y :: r))). split.
    + intros [H|H]%orb_true_iff.
      * apply startswith_first_component in H as ->; [by eexists | done | done].
      * apply String.eqb_eq in H. rewrite <- H, has_sep_app in Hd. done.
    + intros [rest [= -> <-]]. by rewrite startswith_directory.
Qed.

Lemma directory_rule_boundary_witness :
  (rule_matches (str (mkPath "" ["frontend-old"; "x.js"])) ("frontend" ++ "/") = true
   <-> exists rest, tail (mkPath "" ["frontend-old"; "x.js"]) = ("frontend" :: rest)%list) /\
  rule_matches "frontend-old/x.js" "frontend/" = false.
Proof.
  split; [|reflexivity].
  apply (directory_rule_boundary deployed "/home/liveStream/frontend-old/x.js"
           (mkPath "" ["frontend-old"; "x.js"]) "frontend"); reflexivity.
Defined.

(** X12. A rule without a trailing slash is a plain prefix rule: it matches
    every relative path that begins with the pattern, so the rule for
    ["server.js"] also fires for ["server.json"]. *)
Theorem file_rule_is_prefix_rule rel_path pattern :
  rstrip_sep pattern = pattern ->
  rule_matches rel_path pattern = startswith rel_path pattern.
Proof.
  intros Hp. unfold rule_matches. rewrite Hp.
  destruct (String.eqb rel_path pattern) eqn:Heq; [|apply orb_false_r].
  apply String.eqb_eq in Heq as ->. by rewrite startswith_refl.
Qed.

Lemma file_rule_is_prefix_rule_witness :
  rule_matches "server.json" "server.js" = startswith "server.json" "server.js" /\
  get_service deployed "/home/liveStream/server.json" = Ok (Some "livestream").
Proof.
  split; [|reflexivity].
  apply (file_rule_is_prefix_rule "server.json" "server.js"). reflexivity.
Defined.

(** ** Restarts of one service over a run of the watcher *)

Lemma stamps_app service t1 t2 :
  stamps service (t1 ++ t2) = (stamps service t1 ++ stamps service t2)%list.
Proof.
  induction t1 as [|[line|s now|argv] t1 IH]; cbn [stamps app]; [done|done| |done].
  destruct (String.eqb s service); [|done]. by rewrite IH.
Qed.

Lemma stamps_verdict service s o : stamps service (fst (verdict s o)) = [].
Proof.
  destruct o as [r|e]; cbn [verdict].
  - by destruct (returncode r =? 0)%Z.
  - by destruct (is_Exception e).
Qed.

Lemma spaced_snoc d l x :
  spaced d l -> (forall t, last l = Some t -> (d <= x - t)%Q) -> spaced d (l ++ [x]).
Proof.
  induction l as [|a [|b l] IH]; intros Hs Hlast.
  - done.
  - cbn. split; [|done]. by apply Hlast.
  - destruct Hs as [Hab Hs]. split; [done|]. apply IH; [done|].
    intros t Ht. by apply Hlast.
Qed.

(** The time stamps of a service in the trace are spaced, and the last of
    them is the entry of the service in [last_restart]. *)
Lemma restart_service_keeps_spacing cfg E service w :
  (forall s, spaced (DEBOUNCE_SECONDS cfg) (stamps s (trace w)) /\
             last (stamps s (trace w)) = last_restart (self w) !! s) ->
  forall s,
    spaced (DEBOUNCE_SECONDS cfg) (stamps s (trace (snd (restart_service cfg E service w)))) /\
    last (stamps s (trace (snd (restart_service cfg E service w))))
    = last_restart (self (snd (restart_service cfg E service w))) !! s.
Proof.
  intros Hinv s. destruct (Hinv s) as [Hsp Hlast].
  destruct (restart_service_cases cfg E service w) as [[-> _]|[-> Hd]]; [done|].
  cbn [snd trace self stamped last_restart].
  rewrite !stamps_app, stamps_verdict, app_nil_r.
  unfold attempt. cbn [stamps].
  destruct (String.eqb service s) eqn:Hs.
  - apply String.eqb_eq in Hs as ->. rewrite lookup_insert_eq, last_snoc. split; [|done].
    apply spaced_snoc; [done|]. intros t Ht. rewrite Hlast in Ht.
    unfold debounced in Hd. rewrite Ht in Hd. by apply Qltb_ge.
  - apply String.eqb_neq in Hs. rewrite lookup_insert_ne, app_nil_r by done. done.
Qed.

Lemma on_modified_keeps_spacing cfg E ev w :
  (forall s, spaced (DEBOUNCE_SECONDS cfg) (stamps s (trace w)) /\
             last (stamps s (trace w)) = last_restart (self w) !! s) ->
  forall s,
    spaced (DEBOUNCE_SECONDS cfg) (stamps s (trace (snd (on_modified cfg E ev w)))) /\
    last (stamps s (trace (snd (on_modified cfg E ev w))))
    = last_restart (self (snd (on_modified cfg E ev w))) !! s.
Proof.
  intros Hinv.
  destruct (on_modified_cases cfg E ev w)
    as [->|[(msg & _ & _ & _ & ->)|(pattern & c & s' & rel & _ & _ & _ & _ & _ & ->)]];
    [done | done |].
  apply restart_service_keeps_spacing. intros s.
  unfold announce. cbn [trace self]. rewrite stamps_app. cbn [stamps].
  rewrite app_nil_r. apply Hinv.
Qed.

(** X13. Over any sequence of callbacks of a new handler, the restarts of
    one service are at least [DEBOUNCE_SECONDS] apart on the clock, each
    from the one before it, and the entry of the service in [last_restart]
    is the time of its latest restart. *)
Theorem restarts_are_spaced cfg calls service :
  let w := callbacks cfg calls fresh in
  spaced (DEBOUNCE_SECONDS cfg) (stamps service (trace w)) /\
  last (stamps service (trace w)) = last_restart (self w) !! service.
Proof.
  intros w. subst w. revert service.
  assert (H : forall w0,
             (forall s, spaced (DEBOUNCE_SECONDS cfg) (stamps s (trace w0)) /\
                        last (stamps s (trace w0)) = last_restart (self w0) !! s) ->
             forall s, spaced (DEBOUNCE_SECONDS cfg) (stamps s (trace (callbacks cfg calls w0))) /\
                       last (stamps s (trace (callbacks cfg calls w0)))
                       = last_restart (self (callbacks cfg calls w0)) !! s).
  { induction calls as [|[E ev] calls IH]; intros w0 Hinv; cbn [callbacks]; [done|].
    apply IH. by apply on_modified_keeps_spacing. }
  apply H. intros s. cbn. by rewrite lookup_empty.
Qed.

Lemma stored_app t1 t2 : stored (t1 ++ t2) = (stored t1 ++ stored t2)%list.
Proof.
  induction t1 as [|[line|s now|argv] t1 IH]; cbn [stored app]; [done|done| |done].
  by rewrite IH.
Qed.

Lemma stored_verdict s o : stored (fst (verdict s o)) = [].
Proof.
  destruct o as [r|e]; cbn [verdict].
  - by destruct (returncode r =? 0)%Z.
  - by destruct (is_Exception e).
Qed.

Lemma on_modified_pairs_runs_and_stamps cfg E ev w :
  runs (trace w) = map restart_argv (stored (trace w)) ->
  runs (trace (snd (on_modified cfg E ev w)))
  = map restart_argv (stored (trace (snd (on_modified cfg E ev w)))).
Proof.
  intros Hinv.
  destruct (on_modified_cases cfg E ev w)
    as [->|[(msg & _ & _ & _ & ->)|(pattern & c & s & rel & _ & _ & _ & _ & _ & ->)]];
    [done | done |].
  destruct (restart_service_cases cfg E (String c s) (announce (str rel) w))
    as [[-> _]|[-> _]]; cbn [snd trace announce].
  - rewrite runs_app, stored_app, app_nil_r. cbn [stored]. by rewrite app_nil_r.
  - rewrite !runs_app, !stored_app, runs_verdict, stored_verdict, !map_app, Hinv.
    reflexivity.
Qed.

(** X14. Over any sequence of callbacks of a new handler, the commands
    handed to the process manager are exactly the restarts of the services
    whose time stamps were stored, one command for each stored time stamp
    and in the same order. *)
Theorem every_restart_is_stamped cfg calls :
  runs (trace (callbacks cfg calls fresh))
  = map restart_argv (stored (trace (callbacks cfg calls fresh))).
Proof.
  assert (H : forall w0, runs (trace w0) = map restart_argv (stored (trace w0)) ->
                         runs (trace (callbacks cfg calls w0))
                         = map restart_argv (stored (trace (callbacks cfg calls w0)))).
  { induction calls as [|[E ev] calls IH]; intros w0 Hinv; cbn [callbacks]; [done|].
    apply IH. by apply on_modified_pairs_runs_and_stamps. }
  by apply H.
Qed.

(** ** The status report at start-up *)

Lemma report_status_cases E service w :
  (exists r line,
     subprocess_run E (is_active_argv service) = Ok r /\
     report_status E service w
     = (Ok tt, mkWorld (self w) (trace w ++ [Run (is_active_argv service); Print line])%list))
  \/
  (exists e,
     subprocess_run E (is_active_argv service) = Raised e /\
     report_status E service w
     = (Raised e, mkWorld (self w) (trace w ++ [Run (is_active_argv service)])%list)).
Proof.
  unfold report_status, run, bind, lift, emit, print, emit. cbn [self trace].
  destruct (subprocess_run E (is_active_argv service)) as [r|e].
  - left. eexists r, _. split; [done|]. by rewrite <- app_assoc.
  - right. by exists e.
Qed.

Lemma for_each_cons {A} (x : A) l body w :
  for_each (x :: l) body w
  = match body x w with
    | (Ok _, w') => for_each l body w'
    | (Raised e, w') => (Raised e, w')
    end.
Proof. reflexivity. Qed.

Lemma for_each_report_status E l w :
  self (snd (for_each l (report_status E) w)) = self w /\
  (exists k, runs (trace (snd (for_each l (report_status E) w)))
             = (runs (trace w) ++ map is_active_argv (take k l))%list /\
             (fst (for_each l (report_status E) w) = Ok tt -> k = length l)) /\
  (fst (for_each l (report_status E) w) = Ok tt <->
   Forall (fun s => exists r, subprocess_run E (is_active_argv s) = Ok r) l) /\
  (forall e, fst (for_each l (report_status E) w) = Raised e ->
             exists s, s ∈ l /\ subprocess_run E (is_active_argv s) = Raised e).
Proof.
  revert w. induction l as [|s l IH]; intros w.
  - cbn. split; [done|]. split; [exists 0%nat; by rewrite app_nil_r|].
    split; [by split|]. intros e [=].
  - rewrite for_each_cons.
    destruct (report_status_cases E s w) as [(r & line & Hr & ->)|(e & He & ->)].
    + destruct (IH (mkWorld (self w) (trace w ++ [Run (is_active_argv s); Print line])%list))
        as (Hself & (k & Hruns & Hk) & Hok & Hexn).
      cbn [self trace] in *. split; [done|]. split; [|split].
      * exists (S k). rewrite Hruns, runs_app. cbn [runs take map].
        rewrite <- app_assoc. split; [done|]. intros H. cbn [length]. f_equal. auto.
      * rewrite Hok. split; [intros H; constructor; eauto|by inversion 1].
      * intros e He. destruct (Hexn e He) as (s' & Hin & Hs').
        exists s'. split; [by apply list_elem_of_further | done].
    + cbn [fst snd self trace]. split; [done|]. split; [|split].
      * exists 1%nat. rewrite runs_app. cbn [runs take map]. by rewrite take_0.
      * split; [done|]. inversion 1 as [|? ? [r Hr] _]. congruence.
      * intros e' [= <-]. exists s. split; [apply list_elem_of_here | done].
Qed.

Lemma status_check_unfold E w :
  status_check E w
  = match for_each reported_services (report_status E)
            (mkWorld (self w) (trace w ++ [Print "Current service status:"])%list) with
    | (Ok _, w') => (Ok tt, mkWorld (self w') (trace w' ++ [Print ""])%list)
    | (Raised e, w') => (Raised e, w')
    end.
Proof.
  unfold status_check, bind, print, emit.
  by destruct (for_each _ _ _) as [[[]|e] w'].
Qed.

(** X15. When the process manager answers the three queries, the status
    report returns normally; it asks [is-active] for animation, livestream
    and webhook, in this order, restarts nothing and leaves the handler
    state alone. *)
Theorem status_check_completes E w :
  (forall s, s ∈ reported_services ->
             exists r, subprocess_run E (is_active_argv s) = Ok r) ->
  fst (status_check E w) = Ok tt /\
  self (snd (status_check E w)) = self w /\
  runs (trace (snd (status_check E w)))
  = (runs (trace w) ++ [ ["systemctl"; "is-active"; "animation"];
                         ["systemctl"; "is-active"; "livestream"];
                         ["systemctl"; "is-active"; "webhook"] ])%list.
Proof.
  intros Hall. rewrite status_check_unfold.
  destruct (for_each_report_status E reported_services
              (mkWorld (self w) (trace w ++ [Print "Current service status:"])%list))
    as (Hself & (k & Hruns & Hk) & Hok & _).
  assert (Hfst : fst (for_each reported_services (report_status E)
                        (mkWorld (self w) (trace w ++ [Print "Current service status:"])%list))
                 = Ok tt).
  { apply Hok, Forall_forall. intros s Hs. by apply Hall. }
  destruct (for_each _ _ _) as [[[]|e] w']; cbn [fst snd self trace] in *; [|done].
  split; [done|]. split; [done|].
  rewrite runs_app, Hruns, (Hk eq_refl), runs_app. cbn. by rewrite !app_nil_r.
Qed.

Lemma status_check_completes_witness :
  fst (status_check (succeeds 0) fresh) = Ok tt /\
  self (snd (status_check (succeeds 0) fresh)) = self fresh /\
  runs (trace (snd (status_check (succeeds 0) fresh)))
  = (runs (trace fresh) ++ [ ["systemctl"; "is-active"; "animation"];
                             ["systemctl"; "is-active"; "livestream"];
                             ["systemctl"; "is-active"; "webhook"] ])%list.
Proof.
  apply (status_check_completes (succeeds 0) fresh).
  intros s _. by eexists.
Defined.

(** X16. The status report has no [try]: it returns normally exactly when
    all three queries were answered, and an exception of a query, of
    whatever class, ends it as the exception of the status report. *)
Theorem status_check_unguarded E w :
  (fst (status_check E w) = Ok tt <->
   forall s, s ∈ reported_services ->
             exists r, subprocess_run E (is_active_argv s) = Ok r) /\
  (forall e, fst (status_check E w) = Raised e ->
             exists s, s ∈ reported_services /\
                       subprocess_run E (is_active_argv s) = Raised e).
Proof.
  rewrite status_check_unfold.
  destruct (for_each_report_status E reported_services
              (mkWorld (self w) (trace w ++ [Print "Current service status:"])%list))
    as (_ & _ & Hok & Hexn).
  destruct (for_each _ _ _) as [[[]|e] w']; cbn [fst] in *.
  - split; [|by intros e [=]]. split; [|done]. intros _ s Hs.
    destruct Hok as [Hok _]. specialize (Hok eq_refl).
    rewrite Forall_forall in Hok. by apply Hok.
  - split; [|exact Hexn]. split; [done|]. intros Hall.
    destruct Hok as [_ Hok]. apply Hok, Forall_forall. intros s Hs.
    by apply Hall.
Qed.


(** * The layer tree printer *)

Lemma layer_ind (P : layer -> Prop) :
  (forall g k v iv n t ls cs it,
      match ls with Some c => Forall P c | None => True end ->
      match cs with Some c => Forall P c | None => True end ->
      match it with Some c => Forall P c | None => True end ->
      P (mkLayer g k v iv n t ls cs it)) ->
  forall l, P l.
Proof.
  intros H. fix IH 1. intros [g k v iv n t ls cs it].
  apply H.
  - destruct ls as [c|]; [|exact I].
    induction c as [|a c IHc]; constructor; [apply IH | exact IHc].
  - destruct cs as [c|]; [|exact I].
    induction c as [|a c IHc]; constructor; [apply IH | exact IHc].
  - destruct it as [c|]; [|exact I].
    induction c as [|a c IHc]; constructor; [apply IH | exact IHc].
Qed.

Lemma chosen_children_Forall (P : layer -> Prop) ls cs it c :
  match ls with Some c => Forall P c | None => True end ->
  match cs with Some c => Forall P c | None => True end ->
  match it with Some c => Forall P c | None => True end ->
  chosen_children ls cs it = Some c -> Forall P c.
Proof.
  unfold chosen_children. intros Hls Hcs Hit.
  destruct ls; [by intros [= <-]|]. destruct cs; [by intros [= <-]|].
  destruct it; [by intros [= <-]|done].
Qed.

Lemma print_layer_tree_eq g k v iv n t ls cs it indent prefix :
  print_layer_tree (mkLayer g k v iv n t ls cs it) indent prefix
  = match group_flag g k with
    | Raised e => ([], Raised e)
    | Ok is_group =>
        match visible_flag v iv with
        | Raised e => ([], Raised e)
        | Ok _ =>
            match (if is_group then chosen_children ls cs it else None) with
            | Some (c :: r) =>
                match print_children print_layer_tree indent prefix
                                     (length (c :: r)) (c :: r) 0 with
                | (out, Ok _) => (node_line indent prefix n t :: out, Ok tt)
                | (out, Raised e) =>
                    if is_Exception e
                    then (node_line indent prefix n t :: out ++ [children_note indent e], Ok tt)%list
                    else (node_line indent prefix n t :: out, Raised e)
                end
            | _ => ([node_line indent prefix n t], Ok tt)
            end
        end
    end.
Proof.
  cbn [print_layer_tree]. unfold chosen_children.
  destruct (group_flag g k) as [[]|]; [| |done];
    (destruct (visible_flag v iv); [|done]); [|done].
  destruct ls as [[|]|]; [done|done|].
  destruct cs as [[|]|]; [done|done|].
  by destruct it as [[|]|].
Qed.

(** X17. An error inside a group does not leave the group: when the probes
    of a node itself return, [print_layer_tree] prints the line of the node
    first and never ends with an exception of class [Exception], whatever
    happens among its descendants. *)
Theorem failures_stay_inside_groups g k v iv n t ls cs it indent prefix is_group shown :
  group_flag g k = Ok is_group ->
  visible_flag v iv = Ok shown ->
  let out := print_layer_tree (mkLayer g k v iv n t ls cs it) indent prefix in
  (exists rest, fst out = (str_mul "  " indent ++ prefix ++ node_name n t) :: rest) /\
  (forall e, snd out = Raised e -> is_Exception e = false).
Proof.
  intros Hg Hv out. subst out. rewrite print_layer_tree_eq, Hg, Hv.
  destruct (if is_group then chosen_children ls cs it else None) as [[|c r]|];
    [split; [by eexists|done] | | split; [by eexists|done]].
  destruct (print_children _ _ _ _ _ _) as [lines [[]|e]].
  - split; [by eexists|done].
  - destruct (is_Exception e) eqn:He; cbn [fst snd].
    + split; [by eexists|done].
    + split; [by eexists|]. by intros e' [= <-].
Qed.

Lemma failures_stay_inside_groups_witness :
  (exists rest,
     fst (print_layer_tree (group_layer "Scene" [pixel_layer "Sky" true;
                                                  broken_layer (OSError "truncated")]) 0 "`-- ")
     = (str_mul "  " 0 ++ "`-- " ++ node_name (Some "Scene") None) :: rest) /\
  (forall e,
     snd (print_layer_tree (group_layer "Scene" [pixel_layer "Sky" true;
                                                 broken_layer (OSError "truncated")]) 0 "`-- ")
     = Raised e -> is_Exception e = false).
Proof.
  apply (failures_stay_inside_groups (Some (Ok true)) (Some "group") (Some true) None
           (Some "Scene") None None None
           (Some [pixel_layer "Sky" true; broken_layer (OSError "truncated")])
           0 "`-- " true "[V]"); reflexivity.
Defined.

Lemma startswith_app a b : startswith (a ++ b) a = true.
Proof.
  induction a as [|c a IH]; [done|]. rewrite append_cons. cbn [startswith].
  by rewrite Ascii.eqb_refl.
Qed.

Lemma startswith_app_cancel a b c : startswith (a ++ b) (a ++ c) = startswith b c.
Proof.
  induction a as [|x a IH]; [done|]. rewrite !append_cons. cbn [startswith].
  by rewrite Ascii.eqb_refl.
Qed.

Lemma str_mul_deeper s n : startswith (str_mul s (S n)) (str_mul s n) = true.
Proof.
  induction n as [|n IH]; [done|].
  change (str_mul s (S (S n))) with (s ++ str_mul s (S n)).
  change (str_mul s (S n)) with (s ++ str_mul s n) at 2.
  by rewrite startswith_app_cancel.
Qed.

Lemma print_children_indented (rec : layer -> nat -> string -> output) indent prefix len todo :
  Forall (fun c => forall i p line,
                     line ∈ fst (rec c i p) -> startswith line (str_mul "  " i) = true) todo ->
  forall i line,
    line ∈ fst (print_children rec indent prefix len todo i) ->
    startswith line (str_mul "  " (S indent)) = true.
Proof.
  induction 1 as [|c todo Hc _ IH]; intros i line; cbn [print_children].
  - by intros ?%elem_of_nil.
  - destruct (rec c (S indent) _) as [out [[]|e]] eqn:Hrec.
    + destruct (print_children rec indent prefix len todo (S i)) as [out' r] eqn:Hrest.
      cbn [fst]. intros [Hin|Hin]%elem_of_app.
      * eapply Hc. by rewrite Hrec.
      * eapply IH. by rewrite Hrest.
    + cbn [fst]. intros Hin. eapply Hc. by rewrite Hrec.
Qed.

(** X18. Every line that [print_layer_tree] prints for a tree, the notes of
    the [except] branch included, begins with the indentation of the call:
    two spaces for each level. *)
Theorem lines_are_indented l indent prefix line :
  line ∈ fst (print_layer_tree l indent prefix) ->
  startswith line (str_mul "  " indent) = true.
Proof.
  revert indent prefix line.
  induction l as [g k v iv n t ls cs it Hls Hcs Hit] using layer_ind.
  intros indent prefix line. rewrite print_layer_tree_eq.
  destruct (group_flag g k) as [is_group|e]; [|by intros ?%elem_of_nil].
  destruct (visible_flag v iv) as [shown|e]; [|by intros ?%elem_of_nil].
  assert (Hown : startswith (node_line indent prefix n t) (str_mul "  " indent) = true)
    by apply startswith_app.
  destruct (if is_group then chosen_children ls cs it else None) as [[|c r]|] eqn:Hch;
    [by intros ->%list_elem_of_singleton | | by intros ->%list_elem_of_singleton].
  assert (Hkids : forall line',
             line' ∈ fst (print_children print_layer_tree indent prefix
                                         (length (c :: r)) (c :: r) 0) ->
             startswith line' (str_mul "  " indent) = true).
  { intros line' Hin. eapply startswith_trans; [|apply str_mul_deeper].
    eapply print_children_indented; [|exact Hin].
    destruct is_group; [|done].
    by apply (chosen_children_Forall _ ls cs it). }
  destruct (print_children _ _ _ _ _ _) as [out [[]|e]]; cbn [fst] in *.
  - intros [Heq|Hin]%elem_of_cons; [by rewrite Heq | auto].
  - destruct (is_Exception e); cbn [fst].
    + intros [Heq|[Hin|Heq%list_elem_of_singleton]%elem_of_app]%elem_of_cons;
        [by rewrite Heq | auto | rewrite Heq; apply startswith_app].
    + intros [Heq|Hin]%elem_of_cons; [by rewrite Heq | auto].
Qed.

Lemma lines_are_indented_witness :
  startswith "      |   `-- y" (str_mul "  " 1) = true.
Proof.
  apply (lines_are_indented
           (group_layer "a" [pixel_layer "a1" true;
                             group_layer "a2" [pixel_layer "x" true; pixel_layer "y" false]])
           1 "|-- " "      |   `-- y").
  vm_compute. do 4 apply list_elem_of_further. apply list_elem_of_here.
Defined.

Lemma print_children_ext (rec rec' : layer -> nat -> string -> output)
    (f : layer -> layer) indent prefix len todo :
  Forall (fun c => forall i p, rec' (f c) i p = rec c i p) todo ->
  forall i, print_children rec' indent prefix len (map f todo) i
            = print_children rec indent prefix len todo i.
Proof.
  induction 1 as [|c todo Hc _ IH]; intros i; cbn [print_children map]; [done|].
  by rewrite Hc, IH.
Qed.

Lemma chosen_children_map (f : layer -> layer) ls cs it :
  chosen_children (option_map (map f) ls) (option_map (map f) cs) (option_map (map f) it)
  = option_map (map f) (chosen_children ls cs it).
Proof. by destruct ls, cs, it. Qed.

(** X19. The visibility of a layer does not show in the tree: turning round
    every [visible] attribute and every answer of [is_visible()] in a tree
    leaves the printed lines and the way the call ends the same. *)
Theorem visibility_is_not_printed l indent prefix :
  print_layer_tree (toggle_visible l) indent prefix = print_layer_tree l indent prefix.
Proof.
  revert indent prefix.
  induction l as [g k v iv n t ls cs it Hls Hcs Hit] using layer_ind.
  intros indent prefix. cbn [toggle_visible]. rewrite !print_layer_tree_eq.
  destruct (group_flag g k) as [is_group|e]; [|done].
  assert (Hv : match visible_flag (option_map negb v)
                       (option_map (fun r => match r with
                                             | Ok b => Ok (negb b)
                                             | Raised e => Raised e
                                             end) iv) with
               | Ok _ => visible_flag v iv = Ok "[V]" \/ visible_flag v iv = Ok "[H]"
               | Raised e => visible_flag v iv = Raised e
               end).
  { destruct v as [[]|]; cbn; auto. destruct iv as [[[]|e]|]; cbn; auto. }
  destruct (visible_flag (option_map negb v) _) as [shown|e];
    [destruct Hv as [->| ->] | by rewrite Hv];
    (destruct is_group; [|done]; rewrite chosen_children_map;
     destruct (chosen_children ls cs it) as [[|c r]|] eqn:Hch; [done| |done];
     cbn [option_map map];
     change (toggle_visible c :: map toggle_visible r) with (map toggle_visible (c :: r));
     rewrite length_map;
     rewrite (print_children_ext print_layer_tree print_layer_tree toggle_visible);
     [done|];
     apply (chosen_children_Forall _ ls cs it); done).
Qed.

Lemma print_children_cut (rec : layer -> nat -> string -> output) indent prefix
    len len' pre bad post post' e :
  (forall i p, rec bad i p = ([], Raised e)) ->
  forall i, (i + length pre < len)%nat -> (i + length pre < len')%nat ->
    print_children rec indent prefix len (pre ++ bad :: post) i
    = print_children rec indent prefix len' (pre ++ bad :: post') i.
Proof.
  intros Hbad. induction pre as [|c pre IH]; intros i Hlen Hlen'.
  - cbn [app print_children]. by rewrite !Hbad.
  - cbn [app print_children]. rewrite length_cons in Hlen, Hlen'.
    assert (Hi : Nat.eqb i (len - 1) = false) by (apply Nat.eqb_neq; lia).
    assert (Hi' : Nat.eqb i (len' - 1) = false) by (apply Nat.eqb_neq; lia).
    rewrite Hi, Hi'. destruct (rec c (S indent) _) as [out [[]|e']]; [|done].
    rewrite (IH (S i)) by lia. done.
Qed.

(** X20. After a child whose own probe raises, the remaining children of the
    group are dropped without a trace: two groups that agree up to and
    including such a child print the same lines, whatever comes after it. *)
Theorem failing_child_cuts_siblings g k v iv n t ls cs it ls' cs' it'
    indent prefix pre bad post post' e :
  chosen_children ls cs it = Some (pre ++ bad :: post)%list ->
  chosen_children ls' cs' it' = Some (pre ++ bad :: post')%list ->
  (forall i p, print_layer_tree bad i p = ([], Raised e)) ->
  print_layer_tree (mkLayer g k v iv n t ls cs it) indent prefix
  = print_layer_tree (mkLayer g k v iv n t ls' cs' it') indent prefix.
Proof.
  intros Hch Hch' Hbad. rewrite !print_layer_tree_eq, Hch, Hch'.
  destruct (group_flag g k) as [[]|]; [|done|done].
  destruct (visible_flag v iv); [|done].
  assert (Hcut : print_children print_layer_tree indent prefix
                   (length (pre ++ bad :: post)) (pre ++ bad :: post) 0
                 = print_children print_layer_tree indent prefix
                     (length (pre ++ bad :: post')) (pre ++ bad :: post') 0).
  { apply (print_children_cut _ _ _ _ _ _ _ _ _ e Hbad);
      rewrite length_app; cbn [length]; lia. }
  destruct pre as [|c pre]; cbn [app] in *; by rewrite Hcut.
Qed.

Lemma failing_child_cuts_siblings_witness :
  print_layer_tree (group_layer "Scene" [pixel_layer "Sky" true;
                                         broken_layer (OSError "truncated");
                                         pixel_layer "Ground" true]) 0 "`-- "
  = print_layer_tree (group_layer "Scene" [pixel_layer "Sky" true;
                                           broken_layer (OSError "truncated")]) 0 "`-- ".
Proof.
  apply (failing_child_cuts_siblings (Some (Ok true)) (Some "group") (Some true) None
           (Some "Scene") None
           None None (Some [pixel_layer "Sky" true; broken_layer (OSError "truncated");
                            pixel_layer "Ground" true])
           None None (Some [pixel_layer "Sky" true; broken_layer (OSError "truncated")])
           0 "`-- " [pixel_layer "Sky" true] (broken_layer (OSError "truncated"))
           [pixel_layer "Ground" true] [] (OSError "truncated")); reflexivity.
Defined.

Lemma print_children_count (rec : layer -> nat -> string -> output) indent prefix len todo :
  Forall (fun c => forall i p, snd (rec c i p) = Ok tt /\
                               length (fst (rec c i p)) = visited c) todo ->
  forall i,
    snd (print_children rec indent prefix len todo i) = Ok tt /\
    length (fst (print_children rec indent prefix len todo i)) = list_sum (map visited todo).
Proof.
  induction 1 as [|c todo Hc _ IH]; intros i; cbn [print_children map list_sum]; [done|].
  destruct (Hc (S indent)
              ((if Nat.ltb 0 indent then if startswith prefix "`" then "    " else "|   " else "")
               ++ (if Nat.eqb i (len - 1) then "`-- " else "|-- "))) as [Hs Hl].
  destruct (rec c (S indent) _) as [out [[]|e]]; cbn [fst snd] in *; [|done].
  destruct (IH (S i)) as [Hs' Hl'].
  destruct (print_children rec indent prefix len todo (S i)) as [out' r']; cbn [fst snd] in *.
  split; [done|]. rewrite length_app, Hl, Hl'. reflexivity.
Qed.

Lemma forallb_Forall_layers (P : layer -> Prop) c :
  Forall (fun l => probes_return l = true -> P l) c ->
  forallb probes_return c = true -> Forall P c.
Proof.
  induction 1 as [|l c Hl _ IH]; cbn [forallb]; [constructor|].
  intros [H1 H2]%andb_true_iff. constructor; auto.
Qed.

(** X21. When no probe raises, the printer returns normally and prints one
    line for each node it visits: the node itself and, for a group, the
    nodes below the children it lists; what a node that is not a group
    holds is not printed. *)
Theorem one_line_per_visited_node l indent prefix :
  probes_return l = true ->
  snd (print_layer_tree l indent prefix) = Ok tt /\
  length (fst (print_layer_tree l indent prefix)) = visited l.
Proof.
  revert indent prefix.
  induction l as [g k v iv n t ls cs it Hls Hcs Hit] using layer_ind.
  intros indent prefix Hp. rewrite print_layer_tree_eq.
  cbn [probes_return visited] in *.
  destruct (group_flag g k) as [is_group|e]; [|done].
  destruct (visible_flag v iv) as [shown|e]; [|done].
  destruct is_group; [|done].
  assert (Hkids : forall c, chosen_children ls cs it = Some c ->
                            forallb probes_return c = true /\
                            Forall (fun l => probes_return l = true ->
                                             forall i p,
                                               snd (print_layer_tree l i p) = Ok tt /\
                                               length (fst (print_layer_tree l i p)) = visited l) c).
  { intros c Hc. split.
    - unfold chosen_children in Hc. destruct ls; [by injection Hc as <-|].
      destruct cs; [by injection Hc as <-|]. destruct it; [by injection Hc as <-|done].
    - apply (chosen_children_Forall _ ls cs it); [| | |done].
      + destruct ls; [|done]. eapply Forall_impl; [exact Hls|]. cbn. auto.
      + destruct cs; [|done]. eapply Forall_impl; [exact Hcs|]. cbn. auto.
      + destruct it; [|done]. eapply Forall_impl; [exact Hit|]. cbn. auto. }
  assert (Hvis : match ls with
                 | Some c => S (list_sum (map visited c))
                 | None => match cs with
                           | Some c => S (list_sum (map visited c))
                           | None => match it with
                                     | Some c => S (list_sum (map visited c))
                                     | None => 1%nat
                                     end
                           end
                 end
                 = match chosen_children ls cs it with
                   | Some c => S (list_sum (map visited c))
                   | None => 1%nat
                   end).
  { by destruct ls, cs, it. }
  rewrite Hvis.
  destruct (chosen_children ls cs it) as [c|] eqn:Hch; [|done].
  destruct (Hkids c eq_refl) as [Hall Hrec].
  destruct c as [|c r]; [done|].
  destruct (print_children_count print_layer_tree indent prefix (length (c :: r)) (c :: r)
              (forallb_Forall_layers _ _ Hrec Hall) 0%nat) as [Hs Hl].
  destruct (print_children _ _ _ _ _ _) as [out [[]|e]]; cbn [fst snd] in *; [|done].
  split; [done|]. cbn [length]. by rewrite Hl.
Qed.

Lemma one_line_per_visited_node_witness :
  snd (print_layer_tree
         (group_layer "Scene" [pixel_layer "Sky" true;
                               group_layer "Props" [pixel_layer "Chair" false]]) 0 "`-- ")
  = Ok tt /\
  length (fst (print_layer_tree
                 (group_layer "Scene" [pixel_layer "Sky" true;
                                       group_layer "Props" [pixel_layer "Chair" false]]) 0 "`-- "))
  = visited (group_layer "Scene" [pixel_layer "Sky" true;
                                  group_layer "Props" [pixel_layer "Chair" false]]).
Proof.
  apply (one_line_per_visited_node
           (group_layer "Scene" [pixel_layer "Sky" true;
                                 group_layer "Props" [pixel_layer "Chair" false]]) 0 "`-- ").
  reflexivity.
Defined.

(** ** Sample runs *)

Example status_report_sample :
  printed (trace (snd (status_check
                         (mkEnv 0 (fun argv =>
                                     match argv with
                                     | [_; _; "animation"] =>
                                         Ok (mkCompleted 0 (" active" ++ String newline "") "")
                                     | _ => Ok (mkCompleted 3 "inactive" "")
                                     end)) fresh)))
  = [ "Current service status:"; "  ✓ animation: active"; "  ✗ livestream: inactive";
      "  ✗ webhook: inactive"; "" ].
Proof. reflexivity. Qed.

Example layer_tree_sample :
  print_layer_tree
    (group_layer "root"
       [ group_layer "a" [pixel_layer "a1" true;
                          group_layer "a2" [pixel_layer "x" true; pixel_layer "y" false]];
         pixel_layer "b" true;
         group_layer "c" [group_layer "c1" [pixel_layer "z" true]] ]) 0 "`-- "
  = ([ "`-- root"; "  |-- a"; "    |   |-- a1"; "    |   `-- a2";
       "      |   |-- x"; "      |   `-- y"; "  |-- b"; "  `-- c";
       "        `-- c1"; "      |   `-- z" ], Ok tt).
Proof. reflexivity. Qed.

Example layer_tree_failure_sample :
  print_layer_tree
    (group_layer "root"
       [ group_layer "a" [pixel_layer "a1" true; broken_layer (OSError "bad");
                          pixel_layer "never" true];
         pixel_layer "b" true ]) 0 "|-- "
  = ([ "|-- root"; "  |-- a"; "    |   |-- a1";
       "      (Could not list children: bad)"; "  `-- b" ], Ok tt).
Proof. reflexivity. Qed.
